(** * A shallow embedding of [simulation/statemachine.py] (class [StateMachine])

    The Python class keeps its configuration in nested dicts and dispatches
    events to an external [target] object, by direct function reference or by
    member name looked up with [getattr] at each call.  The embedding below
    follows the source method by method:

    - dicts are association lists with Python's insertion semantics
      (overwriting a key keeps its slot, a new key is appended);
    - state identifiers are [option string]: [None] is the Python [None]
      sentinel of an uninitialised machine, [Some s] a named state;
    - the target object, the world its methods act on, and the behaviour of
      the callables are parameters of a Section: a callable either returns
      (possibly changing the world) or raises;
    - [doProcess] runs in a state/error/trace monad over the machine and the
      world.  The trace logs every user callable invoked and every [getattr]
      on the target, and also marks entry into the private methods
      [_raise_event] and [_check_transition], so that statements about
      "which events are raised" and "which guards are evaluated" can be read
      off it. *)

From Stdlib Require Import String List ZArith Bool Lia.
Import ListNotations.
Local Open Scope Z_scope.

(** ** Values of the configuration *)

(** Identity of a Python callable (a function, lambda or bound method). *)
Definition FuncId := string.

(** A state identifier; [None] is the sentinel of [StateMachine.__init__]. *)
Definition State := option string.

Definition state_eqb (a b : State) : bool :=
  match a, b with
  | None, None => true
  | Some x, Some y => String.eqb x y
  | _, _ => false
  end.

(** A handler binding as stored by [_add_state]: [None], a function
    reference, or a member name of the target. *)
Inductive Binding :=
| BNone
| BFunc (f : FuncId)
| BName (n : string).

(** A guard as given in a configuration triple: callable or string name. *)
Inductive GuardIn :=
| GIFunc (f : FuncId)
| GIName (n : string).

(** A guard as stored by [_add_transition]: a callable, or the prefixed
    member name ["_check_" + name]. *)
Inductive Guard :=
| GFunc (f : FuncId)
| GName (n : string).

(** What [getattr(target, name)] finds: a callable member or some other
    (non callable) attribute. *)
Inductive Member :=
| MFunc (f : FuncId)
| MOther.

Inductive Event := OnEntry | InState | OnExit.

(** The exceptions [doProcess] and [extend] can raise. *)
Inductive Fault :=
| KeyError
| AttributeError
| TypeError
| Raised (f : FuncId).

(** The per-state dict [{'on_entry': .., 'in_state': .., 'on_exit': ..}]. *)
Record Handlers := mkHandlers {
  on_entry : Binding;
  in_state : Binding;
  on_exit : Binding
}.

Definition handler_of (hs : Handlers) (ev : Event) : Binding :=
  match ev with
  | OnEntry => on_entry hs
  | InState => in_state hs
  | OnExit => on_exit hs
  end.

(** ** Python dicts with [State] keys *)

Fixpoint dict_get {V : Type} (k : State) (d : list (State * V)) : option V :=
  match d with
  | [] => None
  | (k', v) :: d' => if state_eqb k k' then Some v else dict_get k d'
  end.

(** [d[k] = v]: an existing key keeps its slot, a new key goes last. *)
Fixpoint dict_set {V : Type} (k : State) (v : V) (d : list (State * V))
  : list (State * V) :=
  match d with
  | [] => [(k, v)]
  | (k', v') :: d' =>
      if state_eqb k k' then (k', v) :: d' else (k', v') :: dict_set k v d'
  end.

Definition dict_in {V : Type} (k : State) (d : list (State * V)) : bool :=
  match dict_get k d with Some _ => true | None => false end.

(** [cfg]: ['initial' in cfg] and [cfg.get('transitions', [])]. *)
Record Config := mkConfig {
  cfg_initial : option State;
  cfg_transitions : list (State * State * GuardIn)
}.

(** The outcome of a Python call: a value, or a raised exception. *)
Inductive res (A : Type) :=
| Ok (a : A)
| Err (e : Fault).
Arguments Ok {A} a.
Arguments Err {A} e.

(** ** A concrete target for the examples

    Object [1] has the guards [_check_go] (returns True), [_check_no]
    (returns False), the handler [_on_entry_Idle], and an [_on_entry_Run]
    that raises; every other object has no members.  The world is [unit]. *)
Definition ex_getattr (w : unit) (o : nat) (n : string) : option Member :=
  if Nat.eqb o 1 then
    if String.eqb n "_check_go"%string then Some (MFunc "go"%string)
    else if String.eqb n "_check_no"%string then Some (MFunc "no"%string)
    else if String.eqb n "_on_entry_Idle"%string then Some (MFunc "enter_idle"%string)
    else if String.eqb n "_on_entry_Run"%string then Some (MFunc "boom"%string)
    else None
  else None.

Definition ex_call_handler (f : FuncId) (dt : Z) (w : unit) : option unit :=
  if String.eqb f "boom"%string then None else Some w.

Definition ex_call_guard (f : FuncId) (w : unit) : option (bool * unit) :=
  if String.eqb f "no"%string then Some (false, w) else Some (true, w).

(** Insertion order stands for the hash order of the examples' dicts. *)
Definition ex_iter (l : list (State * Guard)) : list (State * Guard) := l.

(** [{'initial': 'Idle', 'transitions': [('Idle', 'A', 'no'),
    ('Idle', 'Run', 'go'), ('Idle', 'B', 'missing')]}]. *)
Definition ex_cfg : Config :=
  mkConfig (Some (Some "Idle"%string))
    [(Some "Idle"%string, Some "A"%string, GIName "no");
     (Some "Idle"%string, Some "Run"%string, GIName "go");
     (Some "Idle"%string, Some "B"%string, GIName "missing")].

(** [{'initial': 'Idle', 'transitions': [('Idle', 'A', 'no'),
    ('Idle', 'B', 'missing')]}]. *)
Definition ex_cfg2 : Config :=
  mkConfig (Some (Some "Idle"%string))
    [(Some "Idle"%string, Some "A"%string, GIName "no");
     (Some "Idle"%string, Some "B"%string, GIName "missing")].

(** [{'initial': 'Idle'}]: an initial state that no transition names. *)
Definition ex_cfg_bare : Config := mkConfig (Some (Some "Idle"%string)) [].

(** A second target: object [1] as above, plus two attributes that are not
    callable, [_check_flag] and [_on_exit_Idle]. *)
Definition ex_getattr2 (w : unit) (o : nat) (n : string) : option Member :=
  if Nat.eqb o 1 && (String.eqb n "_check_flag"%string ||
                     String.eqb n "_on_exit_Idle"%string)
  then Some MOther
  else ex_getattr w o n.

(** [{'initial': 'Idle', 'transitions': [('Idle', 'A', 'no'),
    ('Idle', 'C', 'flag')]}]. *)
Definition ex_cfg3 : Config :=
  mkConfig (Some (Some "Idle"%string))
    [(Some "Idle"%string, Some "A"%string, GIName "no");
     (Some "Idle"%string, Some "C"%string, GIName "flag")].

(** [{'initial': 'Idle', 'transitions': [('Idle', 'A', 'no')]}]. *)
Definition ex_cfg_idle : Config :=
  mkConfig (Some (Some "Idle"%string))
    [(Some "Idle"%string, Some "A"%string, GIName "no")].

(** [{'transitions': [('Idle', 'A', 'no')]}]: no initial state. *)
Definition ex_cfg_noinit : Config :=
  mkConfig None [(Some "Idle"%string, Some "A"%string, GIName "no")].

(** [{'initial': 'Idle', 'transitions': [('Idle', 'Done', 'go')]}]:
    [Done] is only a to-state. *)
Definition ex_cfg_go : Config :=
  mkConfig (Some (Some "Idle"%string))
    [(Some "Idle"%string, Some "Done"%string, GIName "go")].

(** [{'initial': 'Idle', 'transitions': [('Idle', 'A', boom)]}]: the guard
    is the function [boom] itself. *)
Definition ex_cfg_raise : Config :=
  mkConfig (Some (Some "Idle"%string))
    [(Some "Idle"%string, Some "A"%string, GIFunc "boom"%string)].

(** The guards of [ex_call_guard], where [boom] raises also when it is
    called as a guard. *)
Definition ex_call_guard2 (f : FuncId) (w : unit) : option (bool * unit) :=
  if String.eqb f "boom"%string then None else ex_call_guard f w.

Section Machine.

(** The target object, the world the user callables act on, attribute lookup
    on an object, and the behaviour of each callable: a handler receives the
    time delta, a guard no argument; [None] means the call raised. *)
Context {Obj World : Type}.
Variable getattr : World -> Obj -> string -> option Member.
Variable call_handler : FuncId -> Z -> World -> option World.
Variable call_guard : FuncId -> World -> option (bool * World).

(** The iteration order of [dict.iteritems()] on an inner transition dict
    (a Python 2 dict: hash order), given the dict's entries in insertion
    order. *)
Variable iteritems : list (State * Guard) -> list (State * Guard).

(** The instance attributes [_target], [_initial], [_state], [_handler] and
    [_transition] ([_prefix] is the constant dict of name prefixes, inlined
    below). *)
Record SM := mkSM {
  sm_target : Obj;
  sm_initial : State;
  sm_state : State;
  sm_handler : list (State * Handlers);
  sm_transition : list (State * list (State * Guard))
}.

Definition with_state (st : State) (m : SM) : SM :=
  mkSM (sm_target m) (sm_initial m) st (sm_handler m) (sm_transition m).

Definition with_target (t : Obj) (m : SM) : SM :=
  mkSM t (sm_initial m) (sm_state m) (sm_handler m) (sm_transition m).

Definition with_initial (i : State) (m : SM) : SM :=
  mkSM (sm_target m) i (sm_state m) (sm_handler m) (sm_transition m).

(** ** Construction, [extend], [reset], the [target] setter *)

(** [_add_state(state)] with the default, name derived bindings. *)
Definition add_state_default (s : string) (m : SM) : SM :=
  mkSM (sm_target m) (sm_initial m) (sm_state m)
    (dict_set (Some s)
       (mkHandlers (BName ("_on_entry_" ++ s)) (BName ("_in_state_" ++ s))
          (BName ("_on_exit_" ++ s)))
       (sm_handler m))
    (sm_transition m).

(** [if st not in self._handler: self._add_state(st)]; for [st = None] the
    default name ['_on_entry_' + None] raises a [TypeError]. *)
Definition ensure_state (st : State) (m : SM) : option SM :=
  if dict_in st (sm_handler m) then Some m
  else match st with
       | Some s => Some (add_state_default s m)
       | None => None
       end.

Definition stored_guard (g : GuardIn) : Guard :=
  match g with
  | GIFunc f => GFunc f
  | GIName n => GName ("_check_" ++ n)
  end.

(** [_add_transition(from_state, to_state, transition_check)]. *)
Definition add_transition (fr to : State) (g : GuardIn) (m : SM) : SM :=
  let inner := match dict_get fr (sm_transition m) with
               | Some d => d
               | None => []
               end in
  mkSM (sm_target m) (sm_initial m) (sm_state m) (sm_handler m)
    (dict_set fr (dict_set to (stored_guard g) inner) (sm_transition m)).

(** The loop of [extend]; a fault leaves the triples before it applied. *)
Fixpoint add_triples (ts : list (State * State * GuardIn)) (m : SM)
  : SM * option Fault :=
  match ts with
  | [] => (m, None)
  | (fr, to, g) :: ts' =>
      match ensure_state fr m with
      | None => (m, Some TypeError)
      | Some m1 =>
          match ensure_state to m1 with
          | None => (m1, Some TypeError)
          | Some m2 => add_triples ts' (add_transition fr to g m2)
          end
      end
  end.

(** [extend(cfg)]. *)
Definition extend (cfg : Config) (m : SM) : SM * option Fault :=
  let m0 := match cfg_initial cfg with
            | Some i => with_initial i m
            | None => m
            end in
  add_triples (cfg_transitions cfg) m0.

(** [__init__(target, cfg)] up to the call of [extend]: the [None] state is
    registered with no handlers. *)
Definition init_sm (t : Obj) : SM :=
  mkSM t None None [(None, mkHandlers BNone BNone BNone)] [].

Definition construct (t : Obj) (cfg : Config) : SM * option Fault :=
  extend cfg (init_sm t).

(** [reset()]. *)
Definition reset (m : SM) : SM := with_state None m.

(** The [target] property setter. *)
Definition set_target (t : Obj) (m : SM) : SM := with_target t m.

(** ** The cycle: a state, error and trace monad *)

(** A trace entry: entry into [_raise_event(event, dt)] on the then current
    state, entry into [_check_transition(check_func)], a [getattr] on the
    target object, a call of a user callable (with [dt] for a handler, with
    no argument for a guard). *)
Inductive Act :=
| ARaise (ev : Event) (st : State) (dt : Z)
| ACheck (g : Guard)
| AGetattr (o : Obj) (n : string)
| ACall (f : FuncId) (arg : option Z).

Definition M (A : Type) : Type :=
  SM * World -> res A * (SM * World) * list Act.

Definition ret {A : Type} (a : A) : M A := fun s => (Ok a, s, []).

Definition bind {A B : Type} (c : M A) (k : A -> M B) : M B :=
  fun s =>
    match c s with
    | (Ok a, s1, t1) =>
        match k a s1 with
        | (r, s2, t2) => (r, s2, t1 ++ t2)
        end
    | (Err e, s1, t1) => (Err e, s1, t1)
    end.

Notation "x <- c ;; k" := (bind c (fun x => k))
  (at level 61, c at next level, right associativity).
Notation "c ;; k" := (bind c (fun _ => k))
  (at level 61, right associativity).

Definition throw {A : Type} (e : Fault) : M A := fun s => (Err e, s, []).

Definition tell (a : Act) : M unit := fun s => (Ok tt, s, [a]).

Definition get_sm : M SM := fun s => (Ok (fst s), s, []).

(** [self._state = st]. *)
Definition set_state (st : State) : M unit :=
  fun s => (Ok tt, (with_state st (fst s), snd s), []).

(** [getattr(self._target, n, ...)]. *)
Definition py_getattr (n : string) : M (option Member) :=
  fun s => (Ok (getattr (snd s) (sm_target (fst s)) n), s,
            [AGetattr (sm_target (fst s)) n]).

(** [handler(dt)]. *)
Definition invoke_handler (f : FuncId) (dt : Z) : M unit :=
  fun s =>
    match call_handler f dt (snd s) with
    | Some w' => (Ok tt, (fst s, w'), [ACall f (Some dt)])
    | None => (Err (Raised f), s, [ACall f (Some dt)])
    end.

(** [check_func()]. *)
Definition invoke_guard (f : FuncId) : M bool :=
  fun s =>
    match call_guard f (snd s) with
    | Some (b, w') => (Ok b, (fst s, w'), [ACall f None])
    | None => (Err (Raised f), s, [ACall f None])
    end.

(** Python truthiness of a string. *)
Definition str_truthy (n : string) : bool :=
  match n with EmptyString => false | _ => true end.

(** [_raise_event(event, dt)]:
<<
        handler = self._handler[self._state][event]
        if handler and not callable(handler):
            handler = getattr(self._target, handler, None)
        if handler and callable(handler):
            handler(dt)
>> *)
Definition raise_event (ev : Event) (dt : Z) : M unit :=
  m <- get_sm ;;
  tell (ARaise ev (sm_state m) dt) ;;
  match dict_get (sm_state m) (sm_handler m) with
  | None => throw KeyError
  | Some hs =>
      match handler_of hs ev with
      | BNone => ret tt
      | BFunc f => invoke_handler f dt
      | BName n =>
          if str_truthy n then
            r <- py_getattr n ;;
            match r with
            | Some (MFunc f) => invoke_handler f dt
            | _ => ret tt
            end
          else ret tt
      end
  end.

(** [_check_transition(check_func)]:
<<
        if not callable(check_func):
            check_func = getattr(self._target, check_func)
        return check_func()
>> *)
Definition check_transition (g : Guard) : M bool :=
  tell (ACheck g) ;;
  match g with
  | GFunc f => invoke_guard f
  | GName n =>
      r <- py_getattr n ;;
      match r with
      | None => throw AttributeError
      | Some MOther => throw TypeError
      | Some (MFunc f) => invoke_guard f
      end
  end.

(** The [for ... break] loop of [doProcess] over the outgoing transitions. *)
Fixpoint check_loop (dt : Z) (items : list (State * Guard)) : M unit :=
  match items with
  | [] => ret tt
  | (target_state, check_func) :: rest =>
      b <- check_transition check_func ;;
      if b then
        raise_event OnExit dt ;;
        set_state target_state ;;
        raise_event OnEntry dt
      else check_loop dt rest
  end.

(** [doProcess(dt)]. *)
Definition doProcess (dt : Z) : M unit :=
  m <- get_sm ;;
  match sm_state m with
  | None =>
      set_state (sm_initial m) ;;
      raise_event OnEntry 0 ;;
      raise_event InState 0
  | Some _ =>
      match dict_get (sm_state m) (sm_transition m) with
      | None => throw KeyError
      | Some d =>
          check_loop dt (iteritems d) ;;
          raise_event InState dt
      end
  end.

(** The owner's calls between cycles: [process(dt)] (which runs
    [doProcess(dt)]), [reset()] and [extend(cfg)]. *)
Inductive Cmd :=
| CProcess (dt : Z)
| CReset
| CExtend (cfg : Config).

Definition lift_extend (cfg : Config) : M unit :=
  fun s =>
    match extend cfg (fst s) with
    | (m', None) => (Ok tt, (m', snd s), [])
    | (m', Some e) => (Err e, (m', snd s), [])
    end.

Definition run_cmd (c : Cmd) : M unit :=
  match c with
  | CProcess dt => doProcess dt
  | CReset => fun s => (Ok tt, (reset (fst s), snd s), [])
  | CExtend cfg => lift_extend cfg
  end.

Fixpoint run_cmds (cs : list Cmd) : M unit :=
  match cs with
  | [] => ret tt
  | c :: cs' => run_cmd c ;; run_cmds cs'
  end.

(** An owner that makes the calls [cs] one after the other and catches what
    each of them raises, so that the machine goes on from the attributes the
    raising call left:
<<
        for c in cs:
            try:
                c()
            except Exception:
                pass
>> *)
Fixpoint run_all (cs : list Cmd) : M unit :=
  match cs with
  | [] => ret tt
  | c :: cs' =>
      fun s =>
        match run_cmd c s with
        | (_, s1, t1) =>
            match run_all cs' s1 with
            | (r2, s2, t2) => (r2, s2, t1 ++ t2)
            end
        end
  end.

(** ** Helper predicates on traces *)

(** The entries that only dispatch to the target: a lookup or a call. *)
Definition is_dispatch (a : Act) : bool :=
  match a with
  | AGetattr _ _ | ACall _ _ => true
  | _ => false
  end.

Definition is_check (a : Act) : bool :=
  match a with ACheck _ => true | _ => false end.

(** No guard is evaluated in the trace. *)
Definition no_checks (tr : list Act) : bool :=
  forallb (fun a => negb (is_check a)) tr.

Definition is_exit (a : Act) : bool :=
  match a with ARaise OnExit _ _ => true | _ => false end.

Definition is_in_state (a : Act) : bool :=
  match a with ARaise InState _ _ => true | _ => false end.

Definition not_in_state (a : Act) : bool := negb (is_in_state a).

(** Every [getattr] of the trace is done on the object [t]. *)
Definition getattrs_on (t : Obj) (tr : list Act) : Prop :=
  forall o n, In (AGetattr o n) tr -> o = t.

(** A fault raised by a user callable ends the trace with that call. *)
Definition raised_last {A : Type} (r : res A) (tr : list Act) : Prop :=
  forall f, r = Err (Raised f) -> exists t0 a, tr = t0 ++ [ACall f a].

(** The guards of [gs] evaluated one after the other, all returning false. *)
Fixpoint all_false (gs : list (State * Guard)) (m : SM) (w : World)
  : option (World * list Act) :=
  match gs with
  | [] => Some (w, [])
  | (_, g) :: gs' =>
      match check_transition g (m, w) with
      | (Ok false, (_, w1), t1) =>
          match all_false gs' m w1 with
          | Some (w2, t2) => Some (w2, t1 ++ t2)
          | None => None
          end
      | _ => None
      end
  end.

(** [_transition[fr][to]], [None] when either key is missing. *)
Definition trans_get (fr to : State) (m : SM) : option Guard :=
  match dict_get fr (sm_transition m) with
  | Some d => dict_get to d
  | None => None
  end.

(** The handlers [_add_state(st)] registers by default. *)
Definition default_handlers (st : State) : option Handlers :=
  match st with
  | Some s =>
      Some (mkHandlers (BName ("_on_entry_" ++ s)) (BName ("_in_state_" ++ s))
              (BName ("_on_exit_" ++ s)))
  | None => None
  end.

Definition mentions (st : State) (ts : list (State * State * GuardIn)) : bool :=
  existsb (fun '(fr, to, _) => state_eqb st fr || state_eqb st to) ts.

(** The guard of the last triple of [ts] for the pair [fr -> to]. *)
Fixpoint last_guard (fr to : State) (ts : list (State * State * GuardIn))
  : option GuardIn :=
  match ts with
  | [] => None
  | (f, t, g) :: ts' =>
      match last_guard fr to ts' with
      | Some g' => Some g'
      | None => if state_eqb fr f && state_eqb to t then Some g else None
      end
  end.

(** ** [_add_state] with explicit handler arguments *)

(** [kwargs.get(key)]: the keyword arguments of a call, a dict with
    string keys. *)
Fixpoint kw_get (k : string) (kw : list (string * Binding)) : option Binding :=
  match kw with
  | [] => None
  | (k', v) :: kw' => if String.eqb k k' then Some v else kw_get k kw'
  end.

(** One handler of [_add_state(state, *args, **kwargs)]:
<<
        args[i] if len(args) > i else kwargs.get(key, prefix + state)
>>
    The default [prefix + state] is evaluated before [get] is called, also
    when [kwargs] has the key: with [state = None] it raises [TypeError]. *)
Definition state_arg (i : nat) (key prefix : string) (st : State)
    (args : list Binding) (kwargs : list (string * Binding)) : res Binding :=
  match nth_error args i with
  | Some b => Ok b
  | None =>
      match st with
      | None => Err TypeError
      | Some s =>
          Ok (match kw_get key kwargs with
              | Some b => b
              | None => BName (prefix ++ s)
              end)
      end
  end.

(** [_add_state(state, *args, **kwargs)]: the three handlers are computed
    in order, then [self._handler[state]] is assigned. *)
Definition add_state (st : State) (args : list Binding)
    (kwargs : list (string * Binding)) (m : SM) : res SM :=
  match state_arg 0 "on_entry" "_on_entry_" st args kwargs with
  | Err e => Err e
  | Ok a =>
      match state_arg 1 "in_state" "_in_state_" st args kwargs with
      | Err e => Err e
      | Ok b =>
          match state_arg 2 "on_exit" "_on_exit_" st args kwargs with
          | Err e => Err e
          | Ok c =>
              Ok (mkSM (sm_target m) (sm_initial m) (sm_state m)
                    (dict_set st (mkHandlers a b c) (sm_handler m))
                    (sm_transition m))
          end
      end
  end.

(** ** Invariants and observations used by the further properties *)

(** The bindings [__init__] gives the [None] state. *)
Definition noop_handlers : Handlers := mkHandlers BNone BNone BNone.

(** The [None] state has its [__init__] bindings, and every from-state of
    [_transition] and every to-state of its inner dicts has an entry in
    [_handler]. *)
Definition registered (m : SM) : Prop :=
  dict_get None (sm_handler m) = Some noop_handlers /\
  forall fr d, dict_get fr (sm_transition m) = Some d ->
    dict_in fr (sm_handler m) = true /\
    forall to g, In (to, g) d -> dict_in to (sm_handler m) = true.

(** The guards evaluated in a trace, in order. *)
Definition checks (tr : list Act) : list Guard :=
  flat_map (fun a => match a with ACheck g => [g] | _ => [] end) tr.

(** A cycle that ends with a failed lookup of a named guard: [getattr]
    found nothing ([AttributeError]) or a member that is not callable
    ([TypeError]). *)
Definition lookup_fault {A : Type} (r : res A) (o : Obj) (w : World)
    (tr : list Act) : Prop :=
  exists t0 n, tr = t0 ++ [ACheck (GName n); AGetattr o n] /\
    match r with
    | Err AttributeError => getattr w o n = None
    | Err TypeError => getattr w o n = Some MOther
    | _ => False
    end.

(** [extend(c1)] followed by [extend(c2)], as one configuration. *)
Definition cfg_then (c1 c2 : Config) : Config :=
  mkConfig (match cfg_initial c2 with Some i => Some i | None => cfg_initial c1 end)
    (cfg_transitions c1 ++ cfg_transitions c2).

(** A decision procedure for [registered] on a concrete machine. *)
Definition registeredb (m : SM) : bool :=
  match dict_get None (sm_handler m) with
  | Some (mkHandlers BNone BNone BNone) => true
  | _ => false
  end &&
  forallb (fun e => dict_in (fst e) (sm_handler m) &&
                    forallb (fun x => dict_in (fst x) (sm_handler m)) (snd e))
          (sm_transition m).

(** [c] stops at the first call of [f]: when its trace calls [f], the
    result is the fault [f] raised, and that call, the only call of [f] in
    the trace, is its last action. *)
Definition stops_at {A : Type} (f : FuncId) (c : M A) : Prop :=
  forall s r s' tr a, c s = (r, s', tr) -> In (ACall f a) tr ->
    r = Err (Raised f) /\
    exists t0 a', tr = t0 ++ [ACall f a'] /\ forall a'', ~ In (ACall f a'') t0.

(** ** Basic facts *)

Lemma state_eqb_spec (a b : State) : reflect (a = b) (state_eqb a b).
Proof.
  destruct a as [x|], b as [y|]; simpl; try (constructor; congruence).
  destruct (String.eqb_spec x y); constructor; congruence.
Qed.

Lemma state_eqb_refl (a : State) : state_eqb a a = true.
Proof. destruct (state_eqb_spec a a); congruence. Qed.

Lemma dict_get_set {V : Type} (k k' : State) (v : V) (d : list (State * V)) :
  dict_get k (dict_set k' v d) = if state_eqb k k' then Some v else dict_get k d.
Proof.
  induction d as [|[k'' v''] d IH]; simpl.
  - reflexivity.
  - destruct (state_eqb_spec k' k'') as [->|Hne]; simpl.
    + destruct (state_eqb k k''); reflexivity.
    + rewrite IH. destruct (state_eqb_spec k k') as [->|]; simpl.
      * destruct (state_eqb_spec k' k''); congruence.
      * reflexivity.
Qed.

Lemma with_state_twice (a b : State) (m : SM) :
  with_state a (with_state b m) = with_state a m.
Proof. reflexivity. Qed.

Lemma with_state_target (a : State) (m : SM) : sm_target (with_state a m) = sm_target m.
Proof. reflexivity. Qed.

Lemma with_state_self (m : SM) : with_state (sm_state m) m = m.
Proof. destruct m; reflexivity. Qed.

(** A step of the cycle changes no attribute but [_state], looks attributes
    up on the machine's own target only, and a fault of a user callable is
    its last action. *)
Definition frame {A : Type} (c : M A) : Prop :=
  forall m w r m' w' tr, c (m, w) = (r, (m', w'), tr) ->
    (exists st, m' = with_state st m) /\ getattrs_on (sm_target m) tr /\
    raised_last r tr.

Lemma frame_bind {A B : Type} (c : M A) (k : A -> M B) :
  frame c -> (forall a, frame (k a)) -> frame (bind c k).
Proof.
  intros Hc Hk m w r m' w' tr E. unfold bind in E.
  destruct (c (m, w)) as [[[a|e] [m1 w1]] t1] eqn:Ec.
  - destruct (k a (m1, w1)) as [[r2 [m2 w2]] t2] eqn:Ek.
    injection E as <- <- <- <-.
    destruct (Hc _ _ _ _ _ _ Ec) as [[st1 ->] [G1 R1]].
    destruct (Hk a _ _ _ _ _ _ Ek) as [[st2 ->] [G2 R2]].
    split; [exists st2; reflexivity|split].
    + intros o n Hin. apply in_app_or in Hin as [Hin|Hin].
      * exact (G1 o n Hin).
      * exact (G2 o n Hin).
    + intros f Hf. destruct (R2 f Hf) as (t0 & a' & ->).
      exists (t1 ++ t0), a'. rewrite app_assoc. reflexivity.
  - injection E as <- <- <- <-.
    destruct (Hc _ _ _ _ _ _ Ec) as [Hs [G R]].
    split; [exact Hs|split; [exact G|]].
    intros f Hf. injection Hf as ->. apply R. reflexivity.
Qed.

Lemma frame_ret {A : Type} (a : A) : frame (ret a).
Proof.
  intros m w r m' w' tr E. injection E as <- <- <- <-.
  split; [exists (sm_state m); apply eq_sym, with_state_self|].
  split; [intros o n []|intros f Hf; discriminate].
Qed.

Lemma frame_throw {A : Type} (e : Fault) :
  (forall f, e <> Raised f) -> frame (@throw A e).
Proof.
  intros He m w r m' w' tr E. injection E as <- <- <- <-.
  split; [exists (sm_state m); apply eq_sym, with_state_self|].
  split; [intros o n []|intros f Hf; injection Hf as Hf; exfalso; exact (He f Hf)].
Qed.

Lemma frame_tell (a : Act) :
  (forall o n, a <> AGetattr o n) -> frame (tell a).
Proof.
  intros Ha m w r m' w' tr E. injection E as <- <- <- <-.
  split; [exists (sm_state m); apply eq_sym, with_state_self|].
  split; [intros o n [H|[]]; exfalso; eapply Ha; eauto|intros f Hf; discriminate].
Qed.

Lemma frame_get_sm : frame get_sm.
Proof.
  intros m w r m' w' tr E. injection E as <- <- <- <-.
  split; [exists (sm_state m); apply eq_sym, with_state_self|].
  split; [intros o n []|intros f Hf; discriminate].
Qed.

Lemma frame_set_state (st : State) : frame (set_state st).
Proof.
  intros m w r m' w' tr E. injection E as <- <- <- <-.
  split; [exists st; reflexivity|].
  split; [intros o n []|intros f Hf; discriminate].
Qed.

Lemma frame_py_getattr (n : string) : frame (py_getattr n).
Proof.
  intros m w r m' w' tr E. injection E as <- <- <- <-.
  split; [exists (sm_state m); apply eq_sym, with_state_self|].
  split; [intros o n' [H|[]]; injection H; auto|intros f Hf; discriminate].
Qed.

Lemma frame_invoke_handler (f : FuncId) (dt : Z) : frame (invoke_handler f dt).
Proof.
  intros m w r m' w' tr E. unfold invoke_handler in E; simpl in E.
  destruct (call_handler f dt w); injection E as <- <- <- <-;
    (split; [exists (sm_state m); apply eq_sym, with_state_self|]);
    (split; [intros o n [H|[]]; discriminate|]).
  - intros g Hg; discriminate.
  - intros g Hg. injection Hg as <-. exists [], (Some dt). reflexivity.
Qed.

Lemma frame_invoke_guard (f : FuncId) : frame (invoke_guard f).
Proof.
  intros m w r m' w' tr E. unfold invoke_guard in E; simpl in E.
  destruct (call_guard f w) as [[b w1]|]; injection E as <- <- <- <-;
    (split; [exists (sm_state m); apply eq_sym, with_state_self|]);
    (split; [intros o n [H|[]]; discriminate|]).
  - intros g Hg; discriminate.
  - intros g Hg. injection Hg as <-. exists [], None. reflexivity.
Qed.

Create HintDb frame_db.
#[local] Hint Resolve frame_ret frame_get_sm frame_set_state frame_py_getattr
  frame_invoke_handler frame_invoke_guard : frame_db.

(** Decompose a computation into the frame obligations of its pieces. *)
Ltac frame_step :=
  match goal with
  | |- frame (bind _ _) => apply frame_bind; [|intro]
  | |- frame (throw _) => apply frame_throw; intros ? ?; discriminate
  | |- frame (tell _) => apply frame_tell; intros ? ? ?; discriminate
  | |- frame (match ?x with _ => _ end) => destruct x
  | |- frame (if ?x then _ else _) => destruct x
  | |- frame _ => solve [eauto with frame_db]
  end.

Lemma frame_raise_event (ev : Event) (dt : Z) : frame (raise_event ev dt).
Proof. unfold raise_event. repeat frame_step. Qed.

Lemma frame_check_transition (g : Guard) : frame (check_transition g).
Proof. unfold check_transition. repeat frame_step. Qed.

#[local] Hint Resolve frame_raise_event frame_check_transition : frame_db.

Lemma frame_check_loop (dt : Z) (items : list (State * Guard)) :
  frame (check_loop dt items).
Proof.
  induction items as [|[to g] items IH]; simpl; repeat frame_step; exact IH.
Qed.

#[local] Hint Resolve frame_check_loop : frame_db.

Lemma frame_doProcess (dt : Z) : frame (doProcess dt).
Proof. unfold doProcess. repeat frame_step. Qed.

(** ** Shapes of the traces of the two private methods *)

Lemma bind_inv {A B : Type} (c : M A) (k : A -> M B) s r s' tr :
  bind c k s = (r, s', tr) ->
  (exists e, c s = (Err e, s', tr) /\ r = Err e) \/
  (exists a s1 t1 t2, c s = (Ok a, s1, t1) /\ k a s1 = (r, s', t2) /\ tr = t1 ++ t2).
Proof.
  unfold bind. destruct (c s) as [[[a|e] s1] t1].
  - destruct (k a s1) as [[r2 s2] t2] eqn:Ek. intros E. injection E as <- <- <-.
    right. exists a, s1, t1, t2. auto.
  - intros E. injection E as <- <- <-. left. exists e. auto.
Qed.

Ltac close_shape E :=
  simpl in E; injection E as _ <- _ <-; split; [reflexivity|];
  eexists; split; reflexivity.

Lemma raise_event_shape ev dt m w r m' w' tr :
  raise_event ev dt (m, w) = (r, (m', w'), tr) ->
  m' = m /\ exists d, tr = ARaise ev (sm_state m) dt :: d /\
                      forallb is_dispatch d = true.
Proof.
  intros E.
  unfold raise_event, bind, get_sm, tell, throw, ret, py_getattr,
    invoke_handler in E; simpl in E.
  destruct (dict_get (sm_state m) (sm_handler m)) as [hs|]; [|close_shape E].
  destruct (handler_of hs ev) as [|f|n]; simpl in E; [close_shape E| |].
  - destruct (call_handler f dt w); close_shape E.
  - destruct (str_truthy n); simpl in E; [|close_shape E].
    destruct (getattr w (sm_target m) n) as [[f|]|]; simpl in E;
      [|close_shape E|close_shape E].
    destruct (call_handler f dt w); close_shape E.
Qed.

Lemma check_transition_shape g m w r m' w' tr :
  check_transition g (m, w) = (r, (m', w'), tr) ->
  m' = m /\ exists d, tr = ACheck g :: d /\ forallb is_dispatch d = true.
Proof.
  intros E.
  unfold check_transition, bind, tell, throw, py_getattr,
    invoke_guard in E; simpl in E.
  destruct g as [f|n]; simpl in E.
  - destruct (call_guard f w) as [[b w1]|]; close_shape E.
  - destruct (getattr w (sm_target m) n) as [[f|]|]; simpl in E;
      [|close_shape E|close_shape E].
    destruct (call_guard f w) as [[b w1]|]; close_shape E.
Qed.

Lemma dispatch_no_check d : forallb is_dispatch d = true -> forallb (fun a => negb (is_check a)) d = true.
Proof.
  induction d as [|a d IH]; simpl; auto.
  destruct a; simpl; try discriminate; auto.
Qed.

Lemma bind_get_sm {A : Type} (k : SM -> M A) m w :
  bind get_sm k (m, w) = k m (m, w).
Proof. unfold bind, get_sm; simpl. destruct (k m (m, w)) as [[r s] t]. reflexivity. Qed.

(** [_raise_event] reads [_state], [_handler] and [_target] only. *)
Lemma raise_event_congr ev dt m m2 w :
  sm_state m2 = sm_state m -> sm_handler m2 = sm_handler m ->
  sm_target m2 = sm_target m ->
  raise_event ev dt (m2, w) =
  (let '(r, (_, w'), tr) := raise_event ev dt (m, w) in (r, (m2, w'), tr)).
Proof.
  intros Hs Hh Ht.
  destruct m2 as [t2 i2 s2 h2 tr2]; simpl in Hs, Hh, Ht; subst.
  unfold raise_event, bind, get_sm, tell, throw, ret, py_getattr,
    invoke_handler; simpl.
  destruct (dict_get (sm_state m) (sm_handler m)) as [hs|]; simpl; [|reflexivity].
  destruct (handler_of hs ev) as [|f|n]; simpl; [reflexivity| |].
  - destruct (call_handler f dt w); reflexivity.
  - destruct (str_truthy n); simpl; [|reflexivity].
    destruct (getattr w (sm_target m) n) as [[f|]|]; simpl; try reflexivity.
    destruct (call_handler f dt w); reflexivity.
Qed.

Lemma doProcess_uninit dt m w :
  sm_state m = None ->
  doProcess dt (m, w) =
  (set_state (sm_initial m) ;; raise_event OnEntry 0 ;; raise_event InState 0) (m, w).
Proof. intros H. unfold doProcess. rewrite bind_get_sm, H. reflexivity. Qed.

(** The first cycle, run from any machine in the [None] state. *)
Lemma first_cycle_run m w :
  let i := sm_initial m in
  (set_state i ;; raise_event OnEntry 0 ;; raise_event InState 0) (m, w) =
  match raise_event OnEntry 0 (with_state i m, w) with
  | (Ok _, s1, t1) =>
      let '(r2, s2, t2) := raise_event InState 0 s1 in (r2, s2, t1 ++ t2)
  | (Err e, s1, t1) => (Err e, s1, t1)
  end.
Proof.
  unfold bind, set_state; simpl.
  destruct (raise_event OnEntry 0 (with_state (sm_initial m) m, w))
    as [[[u|e] s1] t1]; simpl; [|reflexivity].
  destruct (raise_event InState 0 s1) as [[r2 s2] t2].
  reflexivity.
Qed.

(** What [_raise_event] can return. *)
Lemma raise_event_result ev dt m w r m' w' tr :
  raise_event ev dt (m, w) = (r, (m', w'), tr) ->
  r = Ok tt \/
  (r = Err KeyError /\ dict_get (sm_state m) (sm_handler m) = None) \/
  exists f, r = Err (Raised f).
Proof.
  intros E.
  unfold raise_event, bind, get_sm, tell, throw, ret, py_getattr,
    invoke_handler in E; simpl in E.
  destruct (dict_get (sm_state m) (sm_handler m)) as [hs|] eqn:Hd.
  2: { injection E as <- _ _ _. right; left; auto. }
  destruct (handler_of hs ev) as [|f|n]; simpl in E.
  - injection E as <- _ _ _. left; reflexivity.
  - destruct (call_handler f dt w); injection E as <- _ _ _;
      [left|right; right; exists f]; reflexivity.
  - destruct (str_truthy n); simpl in E; [|injection E as <- _ _ _; left; reflexivity].
    destruct (getattr w (sm_target m) n) as [[f|]|]; simpl in E;
      [|injection E as <- _ _ _; left; reflexivity
       |injection E as <- _ _ _; left; reflexivity].
    destruct (call_handler f dt w); injection E as <- _ _ _;
      [left|right; right; exists f]; reflexivity.
Qed.

(** [self._handler[self._state]] raises [KeyError] before any dispatch. *)
Lemma raise_event_keyerror ev dt m w :
  dict_get (sm_state m) (sm_handler m) = None ->
  raise_event ev dt (m, w) = (Err KeyError, (m, w), [ARaise ev (sm_state m) dt]).
Proof.
  intros H. unfold raise_event, bind, get_sm, tell, throw; simpl.
  rewrite H. reflexivity.
Qed.

Lemma raise_event_err ev dt m w e s' tr :
  raise_event ev dt (m, w) = (Err e, s', tr) ->
  (e = KeyError /\ s' = (m, w) /\ tr = [ARaise ev (sm_state m) dt] /\
   dict_get (sm_state m) (sm_handler m) = None) \/
  exists f, e = Raised f.
Proof.
  destruct s' as [m' w']. intros E.
  destruct (raise_event_result _ _ _ _ _ _ _ _ E) as [H|[[H Hk]|[f H]]];
    [discriminate| |right; exists f; congruence].
  left. injection H as ->.
  rewrite (raise_event_keyerror _ _ _ _ Hk) in E. injection E as <- <-. auto.
Qed.

Lemma dispatch_no_in_state d :
  forallb is_dispatch d = true -> forallb not_in_state d = true.
Proof.
  induction d as [|a d IH]; simpl; auto.
  destruct a; simpl; try discriminate; auto.
Qed.

(** ** C1: the first cycle after construction or [reset()] *)

(** Claim C1.  When [_state] is [None] (after construction or [reset()]),
    [doProcess(dt)] sets [_state] to the initial state (kept even when the
    cycle raises), evaluates no guard and first raises [on_entry] on the
    initial state with delta 0.  When the initial state has no entry in
    [_handler] (no configuration triple names it), the lookup
    [self._handler[self._state]] of that [on_entry] raises [KeyError] and
    nothing else happens: this is where the code departs from its docstring.
    Otherwise [in_state] on the initial state with delta 0 follows exactly
    when the [on_entry] handler returned, and the cycle returns normally or
    raises the fault of the handler it called last.  The outcome depends on
    neither [dt] nor anything of the machine but its initial state, handler
    bindings and target. *)
Theorem doProcess_first_cycle (dt : Z) (m : SM) (w : World) :
  sm_state m = None ->
  let '(r, (m', w'), tr) := doProcess dt (m, w) in
  m' = with_state (sm_initial m) m /\
  no_checks tr = true /\
  (exists d, tr = ARaise OnEntry (sm_initial m) 0 :: d) /\
  (dict_get (sm_initial m) (sm_handler m) = None ->
     r = Err KeyError /\ w' = w /\ tr = [ARaise OnEntry (sm_initial m) 0]) /\
  (dict_get (sm_initial m) (sm_handler m) <> None ->
     exists d1 t2,
       tr = ARaise OnEntry (sm_initial m) 0 :: d1 ++ t2 /\
       forallb is_dispatch d1 = true /\
       (((r = Ok tt \/ exists f, r = Err (Raised f)) /\
         exists d2, t2 = ARaise InState (sm_initial m) 0 :: d2 /\
                    forallb is_dispatch d2 = true) \/
        ((exists f, r = Err (Raised f)) /\ t2 = []))) /\
  (forall dt' m2, sm_state m2 = None -> sm_initial m2 = sm_initial m ->
     sm_handler m2 = sm_handler m -> sm_target m2 = sm_target m ->
     let '(r2, (m2', w2'), tr2) := doProcess dt' (m2, w) in
     r2 = r /\ w2' = w' /\ tr2 = tr /\ sm_state m2' = sm_state m').
Proof.
  intros H0.
  assert (Hother : forall dt' m2, sm_state m2 = None -> sm_initial m2 = sm_initial m ->
     sm_handler m2 = sm_handler m -> sm_target m2 = sm_target m ->
     doProcess dt' (m2, w) =
     (let '(r, (_, w'), tr) :=
        (set_state (sm_initial m) ;; raise_event OnEntry 0 ;;
         raise_event InState 0) (m, w) in
      (r, (with_state (sm_initial m) m2, w'), tr))).
  { intros dt' m2 Hs2 Hi2 Hh2 Ht2.
    rewrite (doProcess_uninit dt' m2 w Hs2), !first_cycle_run, Hi2.
    rewrite (raise_event_congr OnEntry 0 (with_state (sm_initial m) m)
               (with_state (sm_initial m) m2) w); auto.
    destruct (raise_event OnEntry 0 (with_state (sm_initial m) m, w))
      as [[[u|e] [ma wa]] ta] eqn:Ea; [|reflexivity].
    destruct (raise_event_shape _ _ _ _ _ _ _ _ Ea) as [-> _].
    rewrite (raise_event_congr InState 0 (with_state (sm_initial m) m)
               (with_state (sm_initial m) m2) wa); auto.
    destruct (raise_event InState 0 (with_state (sm_initial m) m, wa))
      as [[rb [mb wb]] tb]. reflexivity. }
  rewrite (doProcess_uninit dt m w H0), first_cycle_run.
  destruct (raise_event OnEntry 0 (with_state (sm_initial m) m, w))
    as [[r1 [m1 w1]] t1] eqn:E1.
  destruct (raise_event_shape _ _ _ _ _ _ _ _ E1) as [-> [d1 [-> D1]]].
  simpl sm_state.
  destruct r1 as [u|e].
  - destruct (raise_event InState 0 (with_state (sm_initial m) m, w1))
      as [[r2 [m2 w2]] t2] eqn:E2.
    destruct (raise_event_shape _ _ _ _ _ _ _ _ E2) as [-> [d2 [-> D2]]].
    simpl sm_state.
    split; [reflexivity|]. split.
    { unfold no_checks. simpl. rewrite forallb_app. simpl.
      rewrite (dispatch_no_check _ D1), (dispatch_no_check _ D2). reflexivity. }
    split; [eexists; reflexivity|]. split.
    { intros Hk.
      rewrite (raise_event_keyerror OnEntry 0 (with_state (sm_initial m) m) w Hk) in E1.
      discriminate E1. }
    split.
    { intros Hr. exists d1, (ARaise InState (sm_initial m) 0 :: d2).
      split; [reflexivity|]. split; [exact D1|]. left.
      split; [|exists d2; split; [reflexivity|exact D2]].
      destruct (raise_event_result _ _ _ _ _ _ _ _ E2) as [->|[[-> Hk]|[f ->]]];
        [left; reflexivity|exfalso; exact (Hr Hk)|right; eauto]. }
    intros dt' mb Hs2 Hi2 Hh2 Ht2. rewrite (Hother dt' mb Hs2 Hi2 Hh2 Ht2).
    rewrite first_cycle_run, E1, E2. auto.
  - split; [reflexivity|]. split.
    { unfold no_checks. simpl. rewrite (dispatch_no_check _ D1). reflexivity. }
    split; [eexists; reflexivity|]. split.
    { intros Hk.
      rewrite (raise_event_keyerror OnEntry 0 (with_state (sm_initial m) m) w Hk) in E1.
      injection E1 as <- <- <-. auto. }
    split.
    { intros Hr. exists d1, []. rewrite app_nil_r.
      split; [reflexivity|]. split; [exact D1|]. right. split; [|reflexivity].
      destruct (raise_event_err _ _ _ _ _ _ _ E1) as [(_ & _ & _ & Hk)|[f ->]];
        [exfalso; exact (Hr Hk)|eauto]. }
    intros dt' mb Hs2 Hi2 Hh2 Ht2. rewrite (Hother dt' mb Hs2 Hi2 Hh2 Ht2).
    rewrite first_cycle_run, E1. auto.
Qed.

(** ** The general cycle *)

Lemma doProcess_named dt m w s d :
  sm_state m = Some s -> dict_get (Some s) (sm_transition m) = Some d ->
  doProcess dt (m, w) = (check_loop dt (iteritems d) ;; raise_event InState dt) (m, w).
Proof. intros H Hd. unfold doProcess. rewrite bind_get_sm, H. simpl. rewrite Hd. reflexivity. Qed.

(** The loop with guards that return false before one that returns true. *)
Lemma check_loop_first_true dt m pre to g rest :
  forall w w1 t1 w2 t2,
  all_false pre m w = Some (w1, t1) ->
  check_transition g (m, w1) = (Ok true, (m, w2), t2) ->
  check_loop dt (pre ++ (to, g) :: rest) (m, w) =
  (let '(r, s3, t3) :=
     (raise_event OnExit dt ;; set_state to ;; raise_event OnEntry dt) (m, w2) in
   (r, s3, t1 ++ t2 ++ t3)).
Proof.
  induction pre as [|[x g0] pre IH]; intros w w1 t1 w2 t2 Hf Hg.
  - simpl in Hf. injection Hf as <- <-. simpl.
    unfold bind at 1. rewrite Hg.
    destruct ((raise_event OnExit dt;; set_state to;; raise_event OnEntry dt) (m, w2))
      as [[r3 s3] t3]. reflexivity.
  - simpl in Hf.
    destruct (check_transition g0 (m, w)) as [[[[|]|e] [m0 w0]] t0] eqn:E0;
      try discriminate.
    destruct (all_false pre m w0) as [[w1' t1']|] eqn:Ef; try discriminate.
    injection Hf as <- <-.
    destruct (check_transition_shape _ _ _ _ _ _ _ E0) as [-> _].
    simpl. unfold bind at 1. rewrite E0.
    fold (@bind unit unit). rewrite (IH w0 w1' t1' w2 t2 Ef Hg).
    destruct ((raise_event OnExit dt;; set_state to;; raise_event OnEntry dt) (m, w2))
      as [[r3 s3] t3]. rewrite app_assoc. reflexivity.
Qed.

Local Open Scope nat_scope.

Definition exits (tr : list Act) : nat := length (filter is_exit tr).

Lemma exits_app t1 t2 : exits (t1 ++ t2) = exits t1 + exits t2.
Proof. unfold exits. rewrite filter_app, length_app. reflexivity. Qed.

Lemma exits_dispatch d : forallb is_dispatch d = true -> exits d = 0.
Proof.
  induction d as [|a d IH]; simpl; auto.
  destruct a; simpl; try discriminate; auto.
Qed.

(** Every trace of [c] has at most [n] [on_exit] events. *)
Definition exit_bound {A : Type} (n : nat) (c : M A) : Prop :=
  forall s r s' tr, c s = (r, s', tr) -> exits tr <= n.

Lemma exit_bound_bind {A B : Type} a b (c : M A) (k : A -> M B) :
  exit_bound a c -> (forall x, exit_bound b (k x)) -> exit_bound (a + b) (bind c k).
Proof.
  intros Hc Hk s r s' tr E.
  apply bind_inv in E as [(e & E1 & _)|(x & s1 & t1 & t2 & E1 & E2 & ->)].
  - specialize (Hc _ _ _ _ E1). lia.
  - rewrite exits_app.
    specialize (Hc _ _ _ _ E1). specialize (Hk _ _ _ _ _ E2). lia.
Qed.

Lemma exit_bound_mono {A : Type} n n' (c : M A) :
  n <= n' -> exit_bound n c -> exit_bound n' c.
Proof. intros Hn H s r s' tr E. specialize (H _ _ _ _ E). lia. Qed.

Lemma exit_bound_raise ev dt :
  exit_bound (match ev with OnExit => 1 | _ => 0 end) (raise_event ev dt).
Proof.
  intros [m w] r [m' w'] tr E.
  destruct (raise_event_shape _ _ _ _ _ _ _ _ E) as [_ [d [-> D]]].
  change (ARaise ev (sm_state m) dt :: d) with ([ARaise ev (sm_state m) dt] ++ d).
  rewrite exits_app, (exits_dispatch _ D). destruct ev; simpl; lia.
Qed.

Lemma exit_bound_check g : exit_bound 0 (check_transition g).
Proof.
  intros [m w] r [m' w'] tr E.
  destruct (check_transition_shape _ _ _ _ _ _ _ E) as [_ [d [-> D]]].
  change (ACheck g :: d) with ([ACheck g] ++ d).
  rewrite exits_app, (exits_dispatch _ D). reflexivity.
Qed.

Lemma exit_bound_set_state st : exit_bound 0 (set_state st).
Proof. intros s r s' tr E. injection E as _ _ <-. reflexivity. Qed.

Lemma exit_bound_check_loop dt items : exit_bound 1 (check_loop dt items).
Proof.
  induction items as [|[to g] items IH]; simpl.
  - intros s r s' tr E. unfold ret in E. injection E as _ _ <-. unfold exits. simpl. lia.
  - change 1 with (0 + 1). apply exit_bound_bind; [apply exit_bound_check|].
    intros [|].
    + change 1 with (1 + (0 + 0)). apply exit_bound_bind; [apply (exit_bound_raise OnExit)|].
      intros _. apply exit_bound_bind; [apply exit_bound_set_state|].
      intros _. apply (exit_bound_raise OnEntry).
    + exact IH.
Qed.

Lemma exit_bound_doProcess dt : exit_bound 1 (doProcess dt).
Proof.
  intros [m w] r s' tr E.
  destruct (sm_state m) as [x|] eqn:Hs.
  - destruct (dict_get (Some x) (sm_transition m)) as [d|] eqn:Hd.
    + rewrite (doProcess_named dt m w x d Hs Hd) in E.
      revert E. change 1 with (1 + 0). apply exit_bound_bind;
        [apply exit_bound_check_loop|intros _; apply (exit_bound_raise InState)].
    + unfold doProcess in E. rewrite bind_get_sm, Hs in E. simpl in E.
      rewrite Hd in E. unfold throw in E. injection E as _ _ <-. unfold exits. simpl. lia.
  - rewrite (doProcess_uninit dt m w Hs) in E. revert E.
    apply (exit_bound_mono 0); [lia|].
    change 0 with (0 + (0 + 0)). apply exit_bound_bind; [apply exit_bound_set_state|].
    intros _. apply exit_bound_bind; [apply (exit_bound_raise OnEntry)|].
    intros _. apply (exit_bound_raise InState).
Qed.

Local Open Scope Z_scope.

Lemma exit_entry_run dt to m w :
  (raise_event OnExit dt ;; set_state to ;; raise_event OnEntry dt) (m, w) =
  match raise_event OnExit dt (m, w) with
  | (Ok _, (m1, w1), t1) =>
      let '(r2, s2, t2) := raise_event OnEntry dt (with_state to m1, w1) in
      (r2, s2, t1 ++ t2)
  | (Err e, s1, t1) => (Err e, s1, t1)
  end.
Proof.
  unfold bind at 1 2, set_state; simpl.
  destruct (raise_event OnExit dt (m, w)) as [[[u|e] [m1 w1]] t1]; simpl; [|reflexivity].
  destruct (raise_event OnEntry dt (with_state to m1, w1)) as [[r2 s2] t2].
  reflexivity.
Qed.

Lemma doProcess_first_true dt m w s d pre to g rest w1 t1 w2 t2 :
  sm_state m = Some s ->
  dict_get (Some s) (sm_transition m) = Some d ->
  iteritems d = pre ++ (to, g) :: rest ->
  all_false pre m w = Some (w1, t1) ->
  check_transition g (m, w1) = (Ok true, (m, w2), t2) ->
  doProcess dt (m, w) =
  match raise_event OnExit dt (m, w2) with
  | (Ok _, (m3, w3), t3) =>
      match raise_event OnEntry dt (with_state to m3, w3) with
      | (Ok _, s4, t4) =>
          let '(r5, s5, t5) := raise_event InState dt s4 in
          (r5, s5, t1 ++ t2 ++ (t3 ++ t4) ++ t5)
      | (Err e, s4, t4) => (Err e, s4, t1 ++ t2 ++ t3 ++ t4)
      end
  | (Err e, s3, t3) => (Err e, s3, t1 ++ t2 ++ t3)
  end.
Proof.
  intros Hs Hd Hit Hf Hg.
  rewrite (doProcess_named dt m w s d Hs Hd), Hit.
  unfold bind at 1. fold (@bind unit unit).
  rewrite (check_loop_first_true dt m pre to g rest w w1 t1 w2 t2 Hf Hg),
    exit_entry_run.
  destruct (raise_event OnExit dt (m, w2)) as [[[u|e] [m3 w3]] t3]; [|reflexivity].
  destruct (raise_event OnEntry dt (with_state to m3, w3)) as [[[u'|e'] s4] t4];
    [|reflexivity].
  destruct (raise_event InState dt s4) as [[r5 s5] t5].
  rewrite <- !app_assoc. reflexivity.
Qed.


(** ** C2: at most one transition per cycle *)

(** Claim C2.  On a cycle after the first, when the guards of the current
    state's outgoing transitions, in the iteration order of the dict,
    return false up to one that returns true: [on_exit] is raised on the old
    state with [dt] right after that guard, no further guard is evaluated,
    and (when the cycle returns normally) [on_entry] and then [in_state] are
    raised on the transition's target state with [dt], which becomes the
    current state.  And no cycle whatsoever raises [on_exit] more than once. *)
Theorem doProcess_one_transition :
  (forall dt m w s d pre to g rest w1 t1 w2 t2,
    sm_state m = Some s ->
    dict_get (Some s) (sm_transition m) = Some d ->
    iteritems d = pre ++ (to, g) :: rest ->
    all_false pre m w = Some (w1, t1) ->
    check_transition g (m, w1) = (Ok true, (m, w2), t2) ->
    let '(r, (m', w'), tr) := doProcess dt (m, w) in
    exists t3,
      tr = t1 ++ t2 ++ ARaise OnExit (Some s) dt :: t3 /\
      no_checks t3 = true /\
      (r = Ok tt ->
       sm_state m' = to /\
       exists d1 d2 d3,
         t3 = d1 ++ ARaise OnEntry to dt :: d2 ++ ARaise InState to dt :: d3 /\
         forallb is_dispatch (d1 ++ d2 ++ d3) = true)) /\
  (forall dt m w,
    let '(_, _, tr) := doProcess dt (m, w) in (exits tr <= 1)%nat).
Proof.
  split.
  - intros dt m w s d pre to g rest w1 t1 w2 t2 Hs Hd Hit Hf Hg.
    rewrite (doProcess_first_true dt m w s d pre to g rest w1 t1 w2 t2 Hs Hd Hit Hf Hg).
    destruct (raise_event OnExit dt (m, w2)) as [[r3 [m3 w3]] t3] eqn:E3.
    destruct (raise_event_shape _ _ _ _ _ _ _ _ E3) as [-> [d1 [-> D1]]].
    rewrite Hs. destruct r3 as [u|e].
    + destruct (raise_event OnEntry dt (with_state to m, w3)) as [[r4 [m4 w4]] t4] eqn:E4.
      destruct (raise_event_shape _ _ _ _ _ _ _ _ E4) as [-> [d2 [-> D2]]].
      simpl sm_state. destruct r4 as [u'|e'].
      * destruct (raise_event InState dt (with_state to m, w4)) as [[r5 [m5 w5]] t5] eqn:E5.
        destruct (raise_event_shape _ _ _ _ _ _ _ _ E5) as [-> [d3 [-> D3]]].
        simpl sm_state. exists (d1 ++ ARaise OnEntry to dt :: d2 ++ ARaise InState to dt :: d3).
        split; [simpl; rewrite <- !app_assoc; reflexivity|]. split.
        { unfold no_checks. rewrite !forallb_app. simpl. rewrite !forallb_app. simpl.
          rewrite !dispatch_no_check by assumption. reflexivity. }
        intros _. split; [reflexivity|]. exists d1, d2, d3. split; [reflexivity|].
        rewrite !forallb_app, D1, D2, D3. reflexivity.
      * exists (d1 ++ ARaise OnEntry to dt :: d2).
        split; [simpl; reflexivity|]. split.
        { unfold no_checks. rewrite !forallb_app. simpl.
          rewrite !dispatch_no_check by assumption. reflexivity. }
        intros Hr; discriminate.
    + exists d1. split; [reflexivity|]. split; [apply dispatch_no_check; exact D1|].
      intros Hr; discriminate.
  - intros dt m w.
    destruct (doProcess dt (m, w)) as [[r s'] tr] eqn:E.
    exact (exit_bound_doProcess dt _ _ _ _ E).
Qed.

(** Every trace of [c] satisfies [p] throughout. *)
Definition all_acts {A : Type} (p : Act -> bool) (c : M A) : Prop :=
  forall s r s' tr, c s = (r, s', tr) -> forallb p tr = true.

Lemma all_acts_bind {A B : Type} p (c : M A) (k : A -> M B) :
  all_acts p c -> (forall x, all_acts p (k x)) -> all_acts p (bind c k).
Proof.
  intros Hc Hk s r s' tr E.
  apply bind_inv in E as [(e & E1 & _)|(x & s1 & t1 & t2 & E1 & E2 & ->)].
  - exact (Hc _ _ _ _ E1).
  - rewrite forallb_app, (Hc _ _ _ _ E1), (Hk _ _ _ _ _ E2). reflexivity.
Qed.

Lemma all_acts_raise p ev dt :
  (forall a, is_dispatch a = true -> p a = true) ->
  (forall st, p (ARaise ev st dt) = true) -> all_acts p (raise_event ev dt).
Proof.
  intros Hd Hr [m w] r [m' w'] tr E.
  destruct (raise_event_shape _ _ _ _ _ _ _ _ E) as [_ [d [-> D]]].
  simpl. rewrite Hr. simpl. clear E.
  induction d as [|a d IH]; simpl in *; auto.
  apply andb_prop in D as [Da Dd]. rewrite (Hd a Da). auto.
Qed.

Lemma all_acts_check p g :
  (forall a, is_dispatch a = true -> p a = true) ->
  p (ACheck g) = true -> all_acts p (check_transition g).
Proof.
  intros Hd Hc [m w] r [m' w'] tr E.
  destruct (check_transition_shape _ _ _ _ _ _ _ E) as [_ [d [-> D]]].
  simpl. rewrite Hc. simpl. clear E.
  induction d as [|a d IH]; simpl in *; auto.
  apply andb_prop in D as [Da Dd]. rewrite (Hd a Da). auto.
Qed.

Lemma check_loop_no_in_state dt items : all_acts not_in_state (check_loop dt items).
Proof.
  assert (Hd : forall a, is_dispatch a = true -> not_in_state a = true)
    by (intros [] H; try discriminate; reflexivity).
  induction items as [|[to g] items IH]; simpl.
  - intros s r s' tr E. unfold ret in E. injection E as _ _ <-. reflexivity.
  - apply all_acts_bind; [apply all_acts_check; auto|]. intros [|]; [|exact IH].
    apply all_acts_bind; [apply all_acts_raise; auto|]. intros _.
    apply all_acts_bind.
    + intros s r s' tr E. injection E as _ _ <-. reflexivity.
    + intros _. apply all_acts_raise; auto.
Qed.

(** ** C3: the closing [in_state] *)

(** The closing [raise_event('in_state', dt)] of a cycle, after a prefix
    that raised no [in_state]. *)
Lemma raise_in_state_tail dtc m1 w1 r m2 w2 t2 :
  raise_event InState dtc (m1, w1) = (r, (m2, w2), t2) ->
  m2 = m1 /\ exists d, t2 = ARaise InState (sm_state m1) dtc :: d /\
    forallb is_dispatch d = true /\
    (r = Ok tt \/ (r = Err KeyError /\ d = []) \/ exists f, r = Err (Raised f)).
Proof.
  intros E.
  destruct (raise_event_shape _ _ _ _ _ _ _ _ E) as [-> [d [Ht D]]].
  split; [reflexivity|]. exists d. split; [exact Ht|]. split; [exact D|].
  destruct r as [u|e]; [left; destruct u; reflexivity|right].
  destruct (raise_event_err _ _ _ _ _ _ _ E) as [(-> & _ & Ht' & _)|[f ->]];
    [left|right; eauto].
  rewrite Ht in Ht'. injection Ht' as ->. auto.
Qed.

(** Claim C3.  A call of [doProcess(dt)] that returns normally ends with
    exactly one [in_state] event, raised on the state current at the end of
    the cycle and followed only by its own dispatch; its time delta is [dt]
    on a cycle after the first and 0 on the first cycle after construction
    or [reset()].  A call that raises either raised no [in_state] at all
    (among others when the current state has no entry in [_transition]:
    the [KeyError] of [self._transition[self._state]], where the code
    departs from its docstring), or raised it as above and then failed in
    it: the lookup of the state's handlers ([KeyError]) or the fault of the
    [in_state] handler. *)
Theorem doProcess_ends_in_state (dt : Z) (m : SM) (w : World) :
  let '(r, (m', w'), tr) := doProcess dt (m, w) in
  (r = Ok tt ->
   exists pre d,
     tr = pre ++ ARaise InState (sm_state m')
                  (match sm_state m with None => 0 | Some _ => dt end) :: d /\
     forallb is_dispatch d = true /\
     forallb not_in_state pre = true) /\
  (forall e, r = Err e ->
   forallb not_in_state tr = true \/
   exists pre d,
     tr = pre ++ ARaise InState (sm_state m')
                  (match sm_state m with None => 0 | Some _ => dt end) :: d /\
     forallb is_dispatch d = true /\
     forallb not_in_state pre = true /\
     ((e = KeyError /\ d = []) \/ exists f, e = Raised f)).
Proof.
  destruct (sm_state m) as [s|] eqn:Hs.
  - destruct (dict_get (Some s) (sm_transition m)) as [dd|] eqn:Hd.
    2:{ unfold doProcess. rewrite bind_get_sm, Hs. simpl. rewrite Hd. simpl.
        split; [intros H; discriminate|intros e _; left; reflexivity]. }
    rewrite (doProcess_named dt m w s dd Hs Hd).
    destruct ((check_loop dt (iteritems dd);; raise_event InState dt) (m, w))
      as [[r [m' w']] tr] eqn:E.
    apply bind_inv in E as [(e & E1 & ->)|(x & [m1 w1] & t1 & t2 & E1 & E2 & ->)].
    + split; [intros H; discriminate|]. intros e' _. left.
      exact (check_loop_no_in_state dt (iteritems dd) _ _ _ _ E1).
    + pose proof (check_loop_no_in_state dt (iteritems dd) _ _ _ _ E1) as N1.
      destruct (raise_in_state_tail _ _ _ _ _ _ _ E2) as [-> (d & -> & D & R)].
      split.
      * intros _. exists t1, d. auto.
      * intros e ->. right. exists t1, d.
        split; [reflexivity|]. split; [exact D|]. split; [exact N1|].
        destruct R as [H|[[H Hd0]|[f H]]]; [discriminate|left|right; exists f];
          injection H as ->; auto.
  - rewrite (doProcess_uninit dt m w Hs), first_cycle_run.
    destruct (raise_event OnEntry 0 (with_state (sm_initial m) m, w))
      as [[[u|e] [m1 w1]] t1] eqn:E1;
      destruct (raise_event_shape _ _ _ _ _ _ _ _ E1) as [-> [d1 [-> D1]]].
    + assert (N1 : forallb not_in_state
                     (ARaise OnEntry (sm_state (with_state (sm_initial m) m)) 0 :: d1)
                   = true) by (simpl; exact (dispatch_no_in_state _ D1)).
      destruct (raise_event InState 0 (with_state (sm_initial m) m, w1))
        as [[r2 [m2 w2]] t2] eqn:E2.
      destruct (raise_in_state_tail _ _ _ _ _ _ _ E2) as [-> (d & -> & D & R)].
      split.
      * intros _. eexists _, d. split; [reflexivity|]. split; [exact D|exact N1].
      * intros e ->. right. eexists _, d.
        split; [reflexivity|]. split; [exact D|]. split; [exact N1|].
        destruct R as [H|[[H Hd0]|[f H]]]; [discriminate|left|right; exists f];
          injection H as ->; auto.
    + split; [intros H; discriminate|]. intros e' _. left.
      simpl. exact (dispatch_no_in_state _ D1).
Qed.

(** The loop with guards that return false before one that faults. *)
Lemma check_loop_first_fault dt m pre to g rest :
  forall w w1 t1 e s2 t2,
  all_false pre m w = Some (w1, t1) ->
  check_transition g (m, w1) = (Err e, s2, t2) ->
  check_loop dt (pre ++ (to, g) :: rest) (m, w) = (Err e, s2, t1 ++ t2).
Proof.
  induction pre as [|[x g0] pre IH]; intros w w1 t1 e s2 t2 Hf Hg.
  - simpl in Hf. injection Hf as <- <-. simpl.
    unfold bind at 1. rewrite Hg. reflexivity.
  - simpl in Hf.
    destruct (check_transition g0 (m, w)) as [[[[|]|e0] [m0 w0]] t0] eqn:E0;
      try discriminate.
    destruct (all_false pre m w0) as [[w1' t1']|] eqn:Ef; try discriminate.
    injection Hf as <- <-.
    destruct (check_transition_shape _ _ _ _ _ _ _ E0) as [-> _].
    simpl. unfold bind at 1. rewrite E0.
    fold (@bind unit unit). rewrite (IH w0 w1' t1' e s2 t2 Ef Hg).
    rewrite app_assoc. reflexivity.
Qed.

Lemma all_false_no_in_state pre m w w1 t1 :
  all_false pre m w = Some (w1, t1) -> forallb not_in_state t1 = true.
Proof.
  assert (Hd : forall a, is_dispatch a = true -> not_in_state a = true)
    by (intros [] H; try discriminate; reflexivity).
  revert w w1 t1. induction pre as [|[x g] pre IH]; intros w w1 t1 Hf; simpl in Hf.
  - injection Hf as _ <-. reflexivity.
  - destruct (check_transition g (m, w)) as [[[[|]|e0] [m0 w0]] t0] eqn:E0;
      try discriminate.
    destruct (all_false pre m w0) as [[w1' t1']|] eqn:Ef; try discriminate.
    injection Hf as _ <-. rewrite forallb_app.
    rewrite (all_acts_check not_in_state g Hd eq_refl _ _ _ _ E0).
    exact (IH _ _ _ Ef).
Qed.

(** [_add_state] touches [_handler] only. *)
Lemma ensure_state_fields st m m' :
  ensure_state st m = Some m' ->
  sm_transition m' = sm_transition m /\ sm_state m' = sm_state m /\
  sm_target m' = sm_target m /\ sm_initial m' = sm_initial m.
Proof.
  unfold ensure_state. destruct (dict_in st (sm_handler m)).
  - intros H. injection H as <-. auto.
  - destruct st as [x|]; intros H; [injection H as <-|discriminate]. simpl. auto.
Qed.

Lemma add_triples_transition_other s ts :
  (forall fr to g, In (fr, to, g) ts -> fr <> Some s) ->
  forall m, dict_get (Some s) (sm_transition (fst (add_triples ts m))) =
            dict_get (Some s) (sm_transition m).
Proof.
  induction ts as [|[[fr to] g] ts IH]; intros Hts m; simpl; [reflexivity|].
  assert (Hfr : fr <> Some s) by (eapply Hts; left; reflexivity).
  assert (Hts' : forall fr' to' g', In (fr', to', g') ts -> fr' <> Some s)
    by (intros; eapply Hts; right; eassumption).
  destruct (ensure_state fr m) as [m1|] eqn:E1; [|reflexivity].
  destruct (ensure_state_fields _ _ _ E1) as [T1 _].
  destruct (ensure_state to m1) as [m2|] eqn:E2; [|simpl; rewrite T1; reflexivity].
  destruct (ensure_state_fields _ _ _ E2) as [T2 _].
  rewrite IH by exact Hts'. unfold add_transition; simpl.
  rewrite dict_get_set, T2, T1.
  destruct (state_eqb_spec (Some s) fr); [congruence|reflexivity].
Qed.

(** ** C4: a named guard that does not resolve *)

(** Claim C4 (as amended).  When the iteration reaches a named guard whose
    name is not found on the current target (the guards before it having
    returned false), [getattr] without default raises [AttributeError]: the
    fault leaves [doProcess], the transition does not fire, the current
    state is unchanged and no event of the cycle is raised. *)
Theorem doProcess_unresolved_guard (dt : Z) (m : SM) (w : World) (s : string)
    d pre to n rest w1 t1 :
  sm_state m = Some s ->
  dict_get (Some s) (sm_transition m) = Some d ->
  iteritems d = pre ++ (to, GName n) :: rest ->
  all_false pre m w = Some (w1, t1) ->
  getattr w1 (sm_target m) n = None ->
  doProcess dt (m, w) =
  (Err AttributeError, (m, w1), t1 ++ [ACheck (GName n); AGetattr (sm_target m) n]).
Proof.
  intros Hs Hd Hit Hf Hn.
  rewrite (doProcess_named dt m w s d Hs Hd), Hit.
  assert (Hg : check_transition (GName n) (m, w1) =
               (Err AttributeError, (m, w1), [ACheck (GName n); AGetattr (sm_target m) n])).
  { unfold check_transition, bind, tell, py_getattr, throw; simpl. rewrite Hn. reflexivity. }
  unfold bind at 1.
  rewrite (check_loop_first_fault dt m pre to (GName n) rest w w1 t1 _ _ _ Hf Hg).
  reflexivity.
Qed.

(** ** C5: faults of user callables *)

Lemma stops_bind {A B : Type} f (c : M A) (k : A -> M B) :
  stops_at f c -> (forall x, stops_at f (k x)) -> stops_at f (bind c k).
Proof.
  intros Hc Hk s r s' tr a E Hin.
  apply bind_inv in E as [(e & E1 & ->)|(x & s1 & t1 & t2 & E1 & E2 & ->)].
  - destruct (Hc _ _ _ _ _ E1 Hin) as [He T]. injection He as ->. auto.
  - assert (N1 : forall a'', ~ In (ACall f a'') t1).
    { intros a'' H. destruct (Hc _ _ _ _ _ E1 H) as [H' _]. discriminate H'. }
    apply in_app_or in Hin as [Hin|Hin]; [exfalso; exact (N1 _ Hin)|].
    destruct (Hk x _ _ _ _ _ E2 Hin) as [Hr (t0 & a' & -> & N0)].
    split; [exact Hr|]. exists (t1 ++ t0), a'. split; [apply app_assoc|].
    intros a'' H. apply in_app_or in H as [H|H]; [exact (N1 _ H)|exact (N0 _ H)].
Qed.

Lemma stops_silent {A : Type} f (c : M A) :
  (forall s r s' tr, c s = (r, s', tr) -> forall g a, ~ In (ACall g a) tr) ->
  stops_at f c.
Proof. intros H s r s' tr a E Hin. exfalso. exact (H _ _ _ _ E f a Hin). Qed.

Ltac silent_trace :=
  intros ? ? ? ? E g a Hin; injection E as _ _ <-;
  repeat (destruct Hin as [Hin|Hin]; [discriminate Hin|]); exact Hin.

Lemma stops_ret {A : Type} f (x : A) : stops_at f (ret x).
Proof. apply stops_silent. silent_trace. Qed.

Lemma stops_throw {A : Type} f e : stops_at f (@throw A e).
Proof. apply stops_silent. silent_trace. Qed.

Lemma stops_get_sm f : stops_at f get_sm.
Proof. apply stops_silent. silent_trace. Qed.

Lemma stops_set_state f st : stops_at f (set_state st).
Proof. apply stops_silent. silent_trace. Qed.

Lemma stops_py_getattr f n : stops_at f (py_getattr n).
Proof. apply stops_silent. silent_trace. Qed.

Lemma stops_tell f x : (forall g a, x <> ACall g a) -> stops_at f (tell x).
Proof.
  intros Hx. apply stops_silent. intros s r s' tr E g a Hin.
  injection E as _ _ <-. destruct Hin as [H|[]]. exact (Hx g a H).
Qed.

(** A callable [f] that raises whenever it is called, as a guard or as a
    handler. *)
Section Raising.
Variable f : FuncId.
Hypothesis guard_raises : forall w, call_guard f w = None.
Hypothesis handler_raises : forall dt w, call_handler f dt w = None.

Lemma stops_invoke_handler g dt : stops_at f (invoke_handler g dt).
Proof.
  intros [m w] r s' tr a E Hin. unfold invoke_handler in E; simpl in E.
  destruct (call_handler g dt w) as [w'|] eqn:Hc;
    injection E as <- <- <-; destruct Hin as [H|[]];
    injection H as Hg Ha; subst g a.
  - rewrite handler_raises in Hc. discriminate Hc.
  - split; [reflexivity|]. exists [], (Some dt). split; [reflexivity|intros _ []].
Qed.

Lemma stops_invoke_guard g : stops_at f (invoke_guard g).
Proof.
  intros [m w] r s' tr a E Hin. unfold invoke_guard in E; simpl in E.
  destruct (call_guard g w) as [[b w']|] eqn:Hc;
    injection E as <- <- <-; destruct Hin as [H|[]];
    injection H as Hg Ha; subst g a.
  - rewrite guard_raises in Hc. discriminate Hc.
  - split; [reflexivity|]. exists [], None. split; [reflexivity|intros _ []].
Qed.

#[local] Hint Resolve stops_ret stops_get_sm stops_set_state stops_py_getattr
  stops_throw stops_invoke_handler stops_invoke_guard : core.

Ltac stops_step :=
  match goal with
  | |- stops_at _ (bind _ _) => apply stops_bind; [|intro]
  | |- stops_at _ (tell _) => apply stops_tell; intros ? ? ?; discriminate
  | |- stops_at _ (match ?x with _ => _ end) => destruct x
  | |- stops_at _ (if ?x then _ else _) => destruct x
  | |- stops_at _ _ => solve [auto]
  end.

Lemma stops_raise_event ev dt : stops_at f (raise_event ev dt).
Proof. unfold raise_event. repeat stops_step. Qed.

Lemma stops_check_transition g : stops_at f (check_transition g).
Proof. unfold check_transition. repeat stops_step. Qed.

#[local] Hint Resolve stops_raise_event stops_check_transition : core.

Lemma stops_check_loop dt items : stops_at f (check_loop dt items).
Proof.
  induction items as [|[to g] items IH]; simpl; repeat stops_step; exact IH.
Qed.

#[local] Hint Resolve stops_check_loop : core.

Lemma stops_doProcess dt : stops_at f (doProcess dt).
Proof. unfold doProcess. repeat stops_step. Qed.

End Raising.

(** Claim C5.  A fault of a user callable leaves [doProcess] at once: it is
    the cycle's result and the call raising it is the last action of the
    cycle (no retry, nothing after it), and the cycle changes no attribute
    but [_state].  In particular, when the [on_entry] of a transition that
    fired raises, the current state is already the transition's target
    state and no [in_state] event is raised in that cycle.  Conversely, a
    callable that raises whenever it is called makes every cycle that calls
    it, wherever it does (a guard, [on_exit], [on_entry] or [in_state], on
    the first cycle or a later one), raise that fault: it is called once,
    and that call is the cycle's last action. *)
Theorem doProcess_fault_propagates :
  (forall dt m w,
    let '(r, (m', w'), tr) := doProcess dt (m, w) in
    (forall f, r = Err (Raised f) -> exists t0 a, tr = t0 ++ [ACall f a]) /\
    exists st, m' = with_state st m) /\
  (forall dt m w s d pre to g rest w1 t1 w2 t2 w3 t3 e m4 w4 t4,
    sm_state m = Some s ->
    dict_get (Some s) (sm_transition m) = Some d ->
    iteritems d = pre ++ (to, g) :: rest ->
    all_false pre m w = Some (w1, t1) ->
    check_transition g (m, w1) = (Ok true, (m, w2), t2) ->
    raise_event OnExit dt (m, w2) = (Ok tt, (m, w3), t3) ->
    raise_event OnEntry dt (with_state to m, w3) = (Err e, (m4, w4), t4) ->
    let '(r, (m', w'), tr) := doProcess dt (m, w) in
    r = Err e /\ sm_state m' = to /\ w' = w4 /\ tr = t1 ++ t2 ++ t3 ++ t4 /\
    forallb not_in_state tr = true) /\
  (forall f dt m w,
    (forall w0, call_guard f w0 = None) ->
    (forall dt0 w0, call_handler f dt0 w0 = None) ->
    let '(r, _, tr) := doProcess dt (m, w) in
    forall a, In (ACall f a) tr ->
    r = Err (Raised f) /\
    exists t0 a', tr = t0 ++ [ACall f a'] /\ forall a'', ~ In (ACall f a'') t0).
Proof.
  split; [|split].
  - intros dt m w.
    destruct (doProcess dt (m, w)) as [[r [m' w']] tr] eqn:E.
    destruct (frame_doProcess dt m w r m' w' tr E) as [Hst [_ Hr]].
    split; [exact Hr|exact Hst].
  - intros dt m w s d pre to g rest w1 t1 w2 t2 w3 t3 e m4 w4 t4
      Hs Hd Hit Hf Hg E3 E4.
    rewrite (doProcess_first_true dt m w s d pre to g rest w1 t1 w2 t2 Hs Hd Hit Hf Hg),
      E3, E4.
    destruct (raise_event_shape _ _ _ _ _ _ _ _ E4) as [-> [d4 [-> D4]]].
    destruct (raise_event_shape _ _ _ _ _ _ _ _ E3) as [_ [d3 [-> D3]]].
    split; [reflexivity|]. split; [reflexivity|]. split; [reflexivity|].
    split; [reflexivity|].
    assert (Hd' : forall a, is_dispatch a = true -> not_in_state a = true)
      by (intros [] H; try discriminate; reflexivity).
    rewrite !forallb_app, (all_false_no_in_state _ _ _ _ _ Hf).
    rewrite (all_acts_check not_in_state g Hd' eq_refl _ _ _ _ Hg).
    assert (Hdisp : forall d, forallb is_dispatch d = true -> forallb not_in_state d = true).
    { induction d0 as [|a d0 IH]; simpl; auto. intros Hx.
      apply andb_prop in Hx as [Ha Hx]. rewrite (Hd' a Ha). auto. }
    simpl. rewrite (Hdisp _ D3), (Hdisp _ D4). reflexivity.
  - intros f dt m w Hg Hh.
    destruct (doProcess dt (m, w)) as [[r s'] tr] eqn:E. intros a Hin.
    exact (stops_doProcess f Hg Hh dt _ _ _ _ _ E Hin).
Qed.

(** ** C8: a named handler that does not resolve *)

(** Claim C8.  Raising an event whose handler is bound to a name that
    [getattr(target, name, None)] does not find is a no-op: the step returns
    normally and changes neither the machine nor the world, and calls
    nothing. *)
Theorem raise_event_unresolved_name (ev : Event) (dt : Z) (m : SM) (w : World)
    hs n :
  dict_get (sm_state m) (sm_handler m) = Some hs ->
  handler_of hs ev = BName n ->
  getattr w (sm_target m) n = None ->
  raise_event ev dt (m, w) =
  (Ok tt, (m, w),
   ARaise ev (sm_state m) dt ::
   (if str_truthy n then [AGetattr (sm_target m) n] else [])).
Proof.
  intros Hh Hb Hn.
  unfold raise_event, bind, get_sm, tell, throw, ret, py_getattr; simpl.
  rewrite Hh; simpl. rewrite Hb; simpl.
  destruct (str_truthy n); simpl; [rewrite Hn|]; reflexivity.
Qed.

(** ** C10: a current state without outgoing transitions *)

(** Claim C10.  When the current state is a named state with no entry in
    [_transition], [doProcess] raises [KeyError] at the lookup
    [self._transition[self._state]], before any event (the closing
    [in_state] included), leaving machine and world unchanged; this is the
    case of every state that no configuration triple names as from-state. *)
Theorem doProcess_missing_transitions :
  (forall dt m w s,
     sm_state m = Some s -> dict_get (Some s) (sm_transition m) = None ->
     doProcess dt (m, w) = (Err KeyError, (m, w), [])) /\
  (forall (t : Obj) cfg s dt m w,
     (forall fr to g, In (fr, to, g) (cfg_transitions cfg) -> fr <> Some s) ->
     sm_transition m = sm_transition (fst (construct t cfg)) ->
     sm_state m = Some s ->
     doProcess dt (m, w) = (Err KeyError, (m, w), [])).
Proof.
  assert (Hk : forall dt m w s,
     sm_state m = Some s -> dict_get (Some s) (sm_transition m) = None ->
     doProcess dt (m, w) = (Err KeyError, (m, w), [])).
  { intros dt m w s Hs Hd. unfold doProcess. rewrite bind_get_sm, Hs. simpl.
    rewrite Hd. reflexivity. }
  split; [exact Hk|].
  intros t cfg s dt m w Hfr Ht Hs. apply (Hk dt m w s Hs).
  rewrite Ht. unfold construct, extend.
  rewrite (add_triples_transition_other s _ Hfr).
  destruct (cfg_initial cfg); reflexivity.
Qed.

(** ** [extend] *)

Lemma ensure_state_handler st m m' :
  ensure_state st m = Some m' ->
  forall x, dict_get x (sm_handler m') =
    match dict_get x (sm_handler m) with
    | Some h => Some h
    | None => if state_eqb x st then default_handlers x else None
    end.
Proof.
  unfold ensure_state, dict_in. intros E x.
  destruct (dict_get st (sm_handler m)) as [h0|] eqn:Hst.
  - injection E as <-. destruct (dict_get x (sm_handler m)) as [h|] eqn:Hx; [reflexivity|].
    destruct (state_eqb_spec x st); [congruence|reflexivity].
  - destruct st as [y|]; [injection E as <-|discriminate]. simpl.
    rewrite dict_get_set.
    destruct (state_eqb_spec x (Some y)) as [->|Hne].
    + rewrite Hst. reflexivity.
    + destruct (dict_get x (sm_handler m)); reflexivity.
Qed.

Lemma ensure_state_some st m :
  dict_in None (sm_handler m) = true -> exists m', ensure_state st m = Some m'.
Proof.
  unfold ensure_state. intros H.
  destruct (dict_in st (sm_handler m)) eqn:Hst; [eauto|].
  destruct st as [y|]; [eauto|congruence].
Qed.

Lemma trans_get_add fr to f t g m :
  trans_get fr to (add_transition f t g m) =
  if state_eqb fr f && state_eqb to t then Some (stored_guard g) else trans_get fr to m.
Proof.
  unfold trans_get, add_transition; simpl. rewrite dict_get_set.
  destruct (state_eqb_spec fr f) as [->|Hne]; simpl; [|reflexivity].
  rewrite dict_get_set. destruct (state_eqb to t); [reflexivity|].
  destruct (dict_get f (sm_transition m)); reflexivity.
Qed.

Lemma dict_in_set {V : Type} x k (v : V) d :
  dict_in x d = true -> dict_in x (dict_set k v d) = true.
Proof.
  unfold dict_in. rewrite dict_get_set. destruct (state_eqb x k); auto.
Qed.

Lemma add_triples_spec ts :
  forall m, dict_in None (sm_handler m) = true ->
  let '(m', fault) := add_triples ts m in
  fault = None /\
  sm_state m' = sm_state m /\ sm_target m' = sm_target m /\
  sm_initial m' = sm_initial m /\
  (forall x, dict_get x (sm_handler m') =
     match dict_get x (sm_handler m) with
     | Some h => Some h
     | None => if mentions x ts then default_handlers x else None
     end) /\
  (forall fr, dict_in fr (sm_transition m) = true ->
              dict_in fr (sm_transition m') = true) /\
  (forall fr to, trans_get fr to m' =
     match last_guard fr to ts with
     | Some g => Some (stored_guard g)
     | None => trans_get fr to m
     end).
Proof.
  induction ts as [|[[f t] g] ts IH]; intros m Hn; simpl.
  - repeat split; auto. intros x. destruct (dict_get x (sm_handler m)); reflexivity.
  - destruct (ensure_state_some f m Hn) as [m1 E1]. rewrite E1.
    assert (Hn1 : dict_in None (sm_handler m1) = true).
    { unfold dict_in in *. rewrite (ensure_state_handler _ _ _ E1).
      destruct (dict_get None (sm_handler m)); [reflexivity|discriminate]. }
    destruct (ensure_state_some t m1 Hn1) as [m2 E2]. rewrite E2.
    assert (Hn2 : dict_in None (sm_handler m2) = true).
    { unfold dict_in in *. rewrite (ensure_state_handler _ _ _ E2).
      destruct (dict_get None (sm_handler m1)); [reflexivity|discriminate]. }
    destruct (ensure_state_fields _ _ _ E1) as (T1 & S1 & G1 & I1).
    destruct (ensure_state_fields _ _ _ E2) as (T2 & S2 & G2 & I2).
    specialize (IH (add_transition f t g m2) Hn2).
    destruct (add_triples ts (add_transition f t g m2)) as [m' fault].
    destruct IH as (F & S & G & I & H & K & Tr). simpl in S, G, I.
    split; [exact F|]. split; [congruence|]. split; [congruence|].
    split; [congruence|]. split; [|split].
    + intros x. rewrite H. simpl.
      rewrite (ensure_state_handler _ _ _ E2), (ensure_state_handler _ _ _ E1).
      destruct (dict_get x (sm_handler m)) as [h|]; [reflexivity|].
      destruct (state_eqb x f), (state_eqb x t), (mentions x ts),
        (default_handlers x); reflexivity.
    + intros fr Hfr. apply K. unfold add_transition; simpl.
      apply dict_in_set. rewrite T2, T1. exact Hfr.
    + intros fr to. rewrite Tr, trans_get_add.
      unfold trans_get. rewrite T2, T1. fold (trans_get fr to m).
      destruct (last_guard fr to ts); [reflexivity|].
      destruct (state_eqb fr f && state_eqb to t); reflexivity.
Qed.

(** [extend] never touches [_state] nor [_target], also when it faults. *)
Lemma add_triples_fields ts :
  forall m, sm_state (fst (add_triples ts m)) = sm_state m /\
            sm_target (fst (add_triples ts m)) = sm_target m.
Proof.
  induction ts as [|[[f t] g] ts IH]; intros m; simpl; [auto|].
  destruct (ensure_state f m) as [m1|] eqn:E1; [|auto].
  destruct (ensure_state_fields _ _ _ E1) as (_ & S1 & G1 & _).
  destruct (ensure_state t m1) as [m2|] eqn:E2; [|simpl; auto].
  destruct (ensure_state_fields _ _ _ E2) as (_ & S2 & G2 & _).
  destruct (IH (add_transition f t g m2)) as [S G]. simpl in S, G.
  split; congruence.
Qed.

Lemma extend_fields cfg m :
  sm_state (fst (extend cfg m)) = sm_state m /\
  sm_target (fst (extend cfg m)) = sm_target m.
Proof.
  unfold extend. destruct (cfg_initial cfg);
    exact (add_triples_fields (cfg_transitions cfg) _).
Qed.

Lemma run_cmd_target c m w r m' w' tr :
  run_cmd c (m, w) = (r, (m', w'), tr) ->
  sm_target m' = sm_target m /\ getattrs_on (sm_target m) tr.
Proof.
  destruct c as [dt| |cfg]; simpl; intros E.
  - destruct (frame_doProcess dt m w r m' w' tr E) as [[st ->] [G _]]. auto.
  - injection E as _ <- _ <-. split; [reflexivity|intros o n []].
  - unfold lift_extend in E; simpl in E.
    destruct (extend_fields cfg m) as [_ G].
    destruct (extend cfg m) as [m1 [e|]]; injection E as _ <- _ <-;
      (split; [exact G|intros o n []]).
Qed.

(** ** C6: [extend] merges *)

(** Claim C6.  On a machine whose [None] state is registered (as
    [__init__] does), [extend(cfg)] raises nothing; it sets the initial
    state only when [cfg] has one; a state gets the default, name derived
    handlers exactly when it was not registered and a triple of [cfg] names
    it, registered states keep their handlers; every from-state keeps its
    entry; the guard of a pair is the stored guard of the last triple of
    [cfg] for that pair, and unchanged when no triple names the pair; the
    current state and the target are unchanged. *)
Theorem extend_merges (cfg : Config) (m : SM) :
  dict_in None (sm_handler m) = true ->
  let '(m', fault) := extend cfg m in
  fault = None /\
  sm_state m' = sm_state m /\ sm_target m' = sm_target m /\
  sm_initial m' = match cfg_initial cfg with Some i => i | None => sm_initial m end /\
  (forall x, dict_get x (sm_handler m') =
     match dict_get x (sm_handler m) with
     | Some h => Some h
     | None => if mentions x (cfg_transitions cfg) then default_handlers x else None
     end) /\
  (forall fr, dict_in fr (sm_transition m) = true ->
              dict_in fr (sm_transition m') = true) /\
  (forall fr to, trans_get fr to m' =
     match last_guard fr to (cfg_transitions cfg) with
     | Some g => Some (stored_guard g)
     | None => trans_get fr to m
     end).
Proof.
  intros Hn. unfold extend.
  destruct (cfg_initial cfg) as [i|].
  - exact (add_triples_spec (cfg_transitions cfg) (with_initial i m) Hn).
  - exact (add_triples_spec (cfg_transitions cfg) m Hn).
Qed.

(** ** C7: late binding of names *)

(** The owner's calls, each one's exception caught, keep the target and
    look names up on it only. *)
Lemma run_all_target cs : forall m w r m' w' tr,
  run_all cs (m, w) = (r, (m', w'), tr) ->
  sm_target m' = sm_target m /\ getattrs_on (sm_target m) tr.
Proof.
  induction cs as [|c cs IH]; intros m w r m' w' tr E; simpl in E.
  - unfold ret in E. injection E as _ <- _ <-. split; [reflexivity|intros o n []].
  - destruct (run_cmd c (m, w)) as [[r1 [m1 w1]] t1] eqn:E1.
    destruct (run_all cs (m1, w1)) as [[r2 [m2 w2]] t2] eqn:E2.
    injection E as _ <- _ <-.
    destruct (run_cmd_target _ _ _ _ _ _ _ E1) as [G1 A1].
    destruct (IH _ _ _ _ _ _ E2) as [G2 A2].
    split; [congruence|]. intros o n Hin. apply in_app_or in Hin as [Hin|Hin].
    + exact (A1 o n Hin).
    + rewrite <- G1. exact (A2 o n Hin).
Qed.

(** Claim C7.  A handler or guard bound by name is looked up with
    [getattr] on the machine's target at each invocation, and the member
    found there is what is called: a callable member is called (with the
    time delta for a handler, with no argument for a guard), otherwise the
    handler is skipped and the guard raises.  After [target] is assigned an
    object [t], through any later [process], [reset] and [extend] calls,
    each one's exception caught by the owner, the target stays [t] and
    every lookup is done on [t]. *)
Theorem late_binding_target :
  (forall ev dt m w hs n,
     dict_get (sm_state m) (sm_handler m) = Some hs ->
     handler_of hs ev = BName n -> str_truthy n = true ->
     raise_event ev dt (m, w) =
     match getattr w (sm_target m) n with
     | Some (MFunc f) =>
         let '(r, s, t) := invoke_handler f dt (m, w) in
         (r, s, ARaise ev (sm_state m) dt :: AGetattr (sm_target m) n :: t)
     | _ => (Ok tt, (m, w), [ARaise ev (sm_state m) dt; AGetattr (sm_target m) n])
     end) /\
  (forall n m w,
     check_transition (GName n) (m, w) =
     match getattr w (sm_target m) n with
     | Some (MFunc f) =>
         let '(r, s, t) := invoke_guard f (m, w) in
         (r, s, ACheck (GName n) :: AGetattr (sm_target m) n :: t)
     | Some MOther =>
         (Err TypeError, (m, w), [ACheck (GName n); AGetattr (sm_target m) n])
     | None =>
         (Err AttributeError, (m, w), [ACheck (GName n); AGetattr (sm_target m) n])
     end) /\
  (forall (t : Obj) cs m w,
     let '(_, (m', _), tr) := run_all cs (set_target t m, w) in
     sm_target m' = t /\ getattrs_on t tr).
Proof.
  split; [|split].
  - intros ev dt m w hs n Hh Hb Hn.
    unfold raise_event, bind, get_sm, tell, ret, py_getattr; simpl.
    rewrite Hh, Hb, Hn; simpl.
    destruct (getattr w (sm_target m) n) as [[f|]|]; simpl; try reflexivity.
    destruct (invoke_handler f dt (m, w)) as [[r s] t]. reflexivity.
  - intros n m w.
    unfold check_transition, bind, tell, throw, py_getattr; simpl.
    destruct (getattr w (sm_target m) n) as [[f|]|]; simpl; try reflexivity.
    destruct (invoke_guard f (m, w)) as [[r s] t]. reflexivity.
  - intros t cs m w.
    destruct (run_all cs (set_target t m, w)) as [[r [m' w']] tr] eqn:E.
    exact (run_all_target cs _ _ _ _ _ _ E).
Qed.

(** ** C9: the [None] state after construction and [reset()] *)

(** Claim C9.  A constructed machine is in the [None] state (its [extend]
    raises nothing), and stays in it through any [reset] and [extend] calls
    made before the first [process]; [reset()] raises no event, calls
    nothing and sets [_state] to [None], changing no other attribute. *)
Theorem uninitialized_after_construct_and_reset :
  (forall (t : Obj) cfg,
     sm_state (fst (construct t cfg)) = None /\ snd (construct t cfg) = None) /\
  (forall t cfg cs w,
     forallb (fun c => match c with CProcess _ => false | _ => true end) cs = true ->
     let '(_, (m', _), _) := run_cmds cs (fst (construct t cfg), w) in
     sm_state m' = None) /\
  (forall m w, run_cmd CReset (m, w) = (Ok tt, (reset m, w), [])) /\
  (forall m, reset m = mkSM (sm_target m) (sm_initial m) None (sm_handler m)
                            (sm_transition m)).
Proof.
  split; [|split; [|split]].
  - intros t cfg. unfold construct.
    assert (Hn : dict_in None (sm_handler (init_sm t)) = true) by reflexivity.
    unfold extend.
    destruct (cfg_initial cfg) as [i|];
      [pose proof (add_triples_spec (cfg_transitions cfg) (with_initial i (init_sm t)) Hn) as P
      |pose proof (add_triples_spec (cfg_transitions cfg) (init_sm t) Hn) as P];
      destruct (add_triples _ _) as [m' fault]; destruct P as (F & S & _);
      split; assumption.
  - intros t cfg cs w Hc.
    assert (H0 : sm_state (fst (construct t cfg)) = None).
    { unfold construct. rewrite (proj1 (extend_fields cfg (init_sm t))). reflexivity. }
    revert H0. generalize (fst (construct t cfg)) as m. revert w.
    induction cs as [|c cs IH]; intros w m Hm.
    + simpl. exact Hm.
    + simpl in Hc. apply andb_prop in Hc as [Hc1 Hc2].
      destruct (run_cmds (c :: cs) (m, w)) as [[r [m' w']] tr] eqn:E. simpl in E.
      apply bind_inv in E as [(e & E1 & _)|(x & [m1 w1] & t1 & t2 & E1 & E2 & ->)].
      * destruct c as [dt| |cfg']; [discriminate| |]; simpl in E1.
        -- discriminate.
        -- unfold lift_extend in E1; simpl in E1.
           destruct (extend_fields cfg' m) as [S _].
           destruct (extend cfg' m) as [m1 [e'|]]; simpl in S; [|discriminate].
           injection E1 as _ <- _ _. congruence.
      * assert (Hm1 : sm_state m1 = None).
        { destruct c as [dt| |cfg']; [discriminate| |]; simpl in E1.
          - injection E1 as _ <- _ _. reflexivity.
          - unfold lift_extend in E1; simpl in E1.
            destruct (extend_fields cfg' m) as [S _].
            destruct (extend cfg' m) as [m2 [e'|]]; simpl in S; [discriminate|].
            injection E1 as _ <- _ _. congruence. }
        specialize (IH Hc2 w1 m1 Hm1). rewrite E2 in IH. exact IH.
  - intros m w. reflexivity.
  - intros m. reflexivity.
Qed.

(** * Further properties of the code *)

(** ** Outcomes of the private methods *)

Lemma check_transition_result g m w r m' w' tr :
  check_transition g (m, w) = (r, (m', w'), tr) ->
  m' = m /\
  ((exists b, r = Ok b) \/ (exists f, r = Err (Raised f)) \/
   ((r = Err AttributeError \/ r = Err TypeError) /\ w' = w /\
    lookup_fault r (sm_target m) w tr)).
Proof.
  intros E.
  unfold check_transition, bind, tell, throw, py_getattr, invoke_guard in E; simpl in E.
  destruct g as [f|n]; simpl in E.
  - destruct (call_guard f w) as [[b w1]|]; injection E as <- <- _ _; split; auto;
      [left; eauto|right; left; eauto].
  - destruct (getattr w (sm_target m) n) as [[f|]|] eqn:Hn; simpl in E.
    + destruct (call_guard f w) as [[b w1]|]; injection E as <- <- _ _; split; auto;
        [left; eauto|right; left; eauto].
    + injection E as <- <- <- <-. split; [reflexivity|]. right; right.
      split; [right; reflexivity|split; [reflexivity|]].
      exists [], n. split; [reflexivity|exact Hn].
    + injection E as <- <- <- <-. split; [reflexivity|]. right; right.
      split; [left; reflexivity|split; [reflexivity|]].
      exists [], n. split; [reflexivity|exact Hn].
Qed.

Lemma raise_event_not_lookup ev dt s r s' tr :
  raise_event ev dt s = (r, s', tr) -> r <> Err AttributeError /\ r <> Err TypeError.
Proof.
  destruct s as [m w], s' as [m' w']. intros E.
  destruct (raise_event_result _ _ _ _ _ _ _ _ E) as [->|[[-> _]|[f ->]]];
    split; discriminate.
Qed.

Lemma doProcess_no_entry dt m w s :
  sm_state m = Some s -> dict_get (Some s) (sm_transition m) = None ->
  doProcess dt (m, w) = (Err KeyError, (m, w), []).
Proof.
  intros Hs Hd. unfold doProcess. rewrite bind_get_sm, Hs. simpl.
  rewrite Hd. reflexivity.
Qed.

Lemma check_loop_all_false dt items m :
  forall w w1 t1, all_false items m w = Some (w1, t1) ->
  check_loop dt items (m, w) = (Ok tt, (m, w1), t1).
Proof.
  induction items as [|[to g] items IH]; intros w w1 t1 Hf; simpl in Hf.
  - injection Hf as <- <-. reflexivity.
  - destruct (check_transition g (m, w)) as [[[[|]|e] [m0 w0]] t0] eqn:E0;
      try discriminate.
    destruct (all_false items m w0) as [[w1' t1']|] eqn:Ef; try discriminate.
    injection Hf as <- <-.
    destruct (check_transition_shape _ _ _ _ _ _ _ E0) as [-> _].
    simpl. unfold bind at 1. rewrite E0. cbv beta iota.
    rewrite (IH w0 w1' t1' Ef). reflexivity.
Qed.

(** The three steps of a transition that fired. *)
Lemma fire_no_keyerror dt to m w r m' w' tr :
  dict_in (sm_state m) (sm_handler m) = true -> dict_in to (sm_handler m) = true ->
  (raise_event OnExit dt ;; set_state to ;; raise_event OnEntry dt) (m, w) =
  (r, (m', w'), tr) ->
  r <> Err KeyError /\ (r = Ok tt -> m' = with_state to m).
Proof.
  intros Hs Hto E. rewrite exit_entry_run in E.
  destruct (raise_event OnExit dt (m, w)) as [[[u|e] [m1 w1]] t1] eqn:E1;
    cbv beta iota in E.
  - destruct (raise_event_shape _ _ _ _ _ _ _ _ E1) as [-> _].
    destruct (raise_event OnEntry dt (with_state to m, w1)) as [[r2 [m2 w2]] t2] eqn:E2.
    injection E as <- <- _ _.
    destruct (raise_event_shape _ _ _ _ _ _ _ _ E2) as [-> _].
    split; [|intros _; reflexivity].
    destruct (raise_event_result _ _ _ _ _ _ _ _ E2) as [->|[[-> Hk]|[f ->]]];
      try discriminate.
    simpl in Hk. unfold dict_in in Hto. rewrite Hk in Hto. congruence.
  - injection E as <- _ _ _. split; [|intros H; congruence].
    destruct (raise_event_result _ _ _ _ _ _ _ _ E1) as [H|[[H Hk]|[f H]]];
      [congruence| |rewrite H; discriminate].
    unfold dict_in in Hs. rewrite Hk in Hs. congruence.
Qed.

Lemma fire_not_lookup dt to s r s' tr :
  (raise_event OnExit dt ;; set_state to ;; raise_event OnEntry dt) s = (r, s', tr) ->
  r <> Err AttributeError /\ r <> Err TypeError.
Proof.
  intros E.
  apply bind_inv in E as [(e & E1 & ->)|(u & s1 & t1 & t2 & E1 & E2 & _)].
  - exact (raise_event_not_lookup _ _ _ _ _ _ E1).
  - apply bind_inv in E2 as [(e & E3 & ->)|(u' & s2 & t3 & t4 & E3 & E4 & _)].
    + unfold set_state in E3. discriminate E3.
    + exact (raise_event_not_lookup _ _ _ _ _ _ E4).
Qed.

Lemma fire_ok_state dt to m w r m' w' tr :
  (raise_event OnExit dt ;; set_state to ;; raise_event OnEntry dt) (m, w) =
  (r, (m', w'), tr) ->
  r = Ok tt -> m' = with_state to m.
Proof.
  intros E Hr. rewrite exit_entry_run in E.
  destruct (raise_event OnExit dt (m, w)) as [[[u|e] [m1 w1]] t1] eqn:E1;
    cbv beta iota in E; [|congruence].
  destruct (raise_event_shape _ _ _ _ _ _ _ _ E1) as [-> _].
  destruct (raise_event OnEntry dt (with_state to m, w1)) as [[r2 [m2 w2]] t2] eqn:E2.
  injection E as _ <- _ _.
  exact (proj1 (raise_event_shape _ _ _ _ _ _ _ _ E2)).
Qed.

Lemma all_acts_set_state p st : all_acts p (set_state st).
Proof. intros s r s' tr E. unfold set_state in E. injection E as _ _ <-. reflexivity. Qed.

Lemma checks_app t1 t2 : checks (t1 ++ t2) = checks t1 ++ checks t2.
Proof. unfold checks. apply flat_map_app. Qed.

Lemma checks_no_check tr :
  forallb (fun a => negb (is_check a)) tr = true -> checks tr = [].
Proof.
  unfold checks. induction tr as [|a tr IH]; simpl; auto.
  destruct a; simpl; try discriminate; auto.
Qed.

Lemma fire_no_checks dt to s r s' tr :
  (raise_event OnExit dt ;; set_state to ;; raise_event OnEntry dt) s = (r, s', tr) ->
  checks tr = [].
Proof.
  intros E. apply checks_no_check.
  assert (Hd : forall a, is_dispatch a = true -> negb (is_check a) = true)
    by (intros [] H; try discriminate; reflexivity).
  assert (H : all_acts (fun a => negb (is_check a))
                (raise_event OnExit dt ;; set_state to ;; raise_event OnEntry dt)).
  { apply all_acts_bind; [apply all_acts_raise; auto|]. intros _.
    apply all_acts_bind; [apply all_acts_set_state|]. intros _.
    apply all_acts_raise; auto. }
  exact (H _ _ _ _ E).
Qed.

(** ** The registration invariant *)

Lemma dict_get_In {V : Type} k (v : V) d : dict_get k d = Some v -> In (k, v) d.
Proof.
  induction d as [|[k' v'] d IH]; simpl; [discriminate|].
  destruct (state_eqb_spec k k') as [->|_].
  - intros H. injection H as <-. left; reflexivity.
  - intros H. right; auto.
Qed.

Lemma registeredb_sound m : registeredb m = true -> registered m.
Proof.
  unfold registeredb, registered. intros H. apply andb_prop in H as [H1 H2].
  split.
  - destruct (dict_get None (sm_handler m)) as [[[] [] []]|]; try discriminate; reflexivity.
  - intros fr d Hd. apply dict_get_In in Hd. rewrite forallb_forall in H2.
    apply H2 in Hd. simpl in Hd. apply andb_prop in Hd as [Ha Hb]. split; [exact Ha|].
    intros to g Hin. rewrite forallb_forall in Hb. exact (Hb _ Hin).
Qed.

Lemma in_dict_set {V : Type} k (v : V) d y x :
  In (y, x) (dict_set k v d) -> (y = k /\ x = v) \/ In (y, x) d.
Proof.
  induction d as [|[k' v'] d IH]; simpl.
  - intros [H|[]]. injection H as <- <-. auto.
  - destruct (state_eqb_spec k k') as [<-|Hne]; simpl.
    + intros [H|H]; [injection H as <- <-; auto|auto].
    + intros [H|H]; [auto|destruct (IH H) as [?|?]; auto].
Qed.

Lemma ensure_state_registered st m m' :
  registered m -> ensure_state st m = Some m' ->
  registered m' /\ dict_in st (sm_handler m') = true /\
  (forall x, dict_in x (sm_handler m) = true -> dict_in x (sm_handler m') = true).
Proof.
  intros [HN HT] E.
  pose proof (ensure_state_handler _ _ _ E) as HH.
  destruct (ensure_state_fields _ _ _ E) as (T & _).
  assert (Hmono : forall x, dict_in x (sm_handler m) = true ->
                            dict_in x (sm_handler m') = true).
  { intros x. unfold dict_in. rewrite HH.
    destruct (dict_get x (sm_handler m)); [auto|intros H; discriminate H]. }
  split; [split|split; [|exact Hmono]].
  - rewrite HH, HN. reflexivity.
  - intros fr d Hd. rewrite T in Hd. destruct (HT fr d Hd) as [H1 H2].
    split; [auto|]. intros to g Hin. apply Hmono. exact (H2 to g Hin).
  - unfold dict_in. rewrite HH.
    destruct (dict_get st (sm_handler m)) eqn:Hst; [reflexivity|].
    rewrite state_eqb_refl. destruct st as [y|]; [reflexivity|].
    unfold ensure_state, dict_in in E. rewrite Hst in E. discriminate.
Qed.

Lemma add_transition_registered fr to g m :
  registered m -> dict_in fr (sm_handler m) = true -> dict_in to (sm_handler m) = true ->
  registered (add_transition fr to g m).
Proof.
  intros [HN HT] Hfr Hto. split; [exact HN|].
  intros x d. unfold add_transition; simpl. rewrite dict_get_set.
  destruct (state_eqb_spec x fr) as [->|Hne].
  - intros Hd. injection Hd as <-. split; [exact Hfr|].
    intros y g' Hin. apply in_dict_set in Hin as [[-> _]|Hin]; [exact Hto|].
    destruct (dict_get fr (sm_transition m)) as [d0|] eqn:Hd0; [|destruct Hin].
    exact (proj2 (HT fr d0 Hd0) y g' Hin).
  - exact (HT x d).
Qed.

Lemma add_triples_registered ts :
  forall m, registered m -> registered (fst (add_triples ts m)).
Proof.
  induction ts as [|[[f t] g] ts IH]; intros m Hm; simpl; [exact Hm|].
  destruct (ensure_state f m) as [m1|] eqn:E1; [|exact Hm].
  destruct (ensure_state_registered _ _ _ Hm E1) as (Hm1 & Hf1 & _).
  destruct (ensure_state t m1) as [m2|] eqn:E2; [|exact Hm1].
  destruct (ensure_state_registered _ _ _ Hm1 E2) as (Hm2 & Ht2 & Mono2).
  apply IH, add_transition_registered; auto.
Qed.

Lemma run_cmd_registered c m w r m' w' tr :
  registered m -> run_cmd c (m, w) = (r, (m', w'), tr) -> registered m'.
Proof.
  intros Hm E. destruct c as [dt| |cfg]; simpl in E.
  - destruct (frame_doProcess dt m w r m' w' tr E) as [[st ->] _]. exact Hm.
  - injection E as _ <- _ _. exact Hm.
  - unfold lift_extend in E; simpl in E.
    assert (Hx : registered (fst (extend cfg m))).
    { unfold extend. destruct (cfg_initial cfg) as [i|];
        apply add_triples_registered; exact Hm. }
    destruct (extend cfg m) as [m1 [e|]]; injection E as _ <- _ _; exact Hx.
Qed.

(** ** Lemmas on the loop of [doProcess] *)

Lemma check_loop_no_keyerror dt d m :
  registered m -> dict_get (sm_state m) (sm_transition m) = Some d ->
  forall items w r m' w' tr, (forall x, In x items -> In x d) ->
  check_loop dt items (m, w) = (r, (m', w'), tr) ->
  r <> Err KeyError /\
  (r = Ok tt -> exists st, m' = with_state st m /\ dict_in st (sm_handler m) = true).
Proof.
  intros [HN HT] Hd. destruct (HT _ _ Hd) as [Hs Hto].
  induction items as [|[to g] items IH]; intros w r m' w' tr Hin E; simpl in E.
  - unfold ret in E. injection E as <- <- _ _. split; [discriminate|].
    intros _. exists (sm_state m). split; [apply eq_sym, with_state_self|exact Hs].
  - apply bind_inv in E as [(e & E1 & ->)|(b & [m1 w1] & t1 & t2 & E1 & E2 & _)].
    + assert (He : e <> KeyError).
      { destruct (check_transition_result _ _ _ _ _ _ _ E1)
          as [_ [[b Hb]|[[f Hf]|[[Ha|Ha] _]]]]; congruence. }
      split; [congruence|intros H; discriminate H].
    + destruct (check_transition_shape _ _ _ _ _ _ _ E1) as [-> _].
      destruct b.
      * assert (Ht : dict_in to (sm_handler m) = true)
          by exact (Hto to g (Hin _ (or_introl eq_refl))).
        destruct (fire_no_keyerror _ _ _ _ _ _ _ _ Hs Ht E2) as [Hr Hok].
        split; [exact Hr|]. intros Hr'. exists to. split; [exact (Hok Hr')|exact Ht].
      * apply (IH w1 r m' w' t2); [intros x Hx; apply Hin; right; exact Hx|exact E2].
Qed.

Lemma check_loop_lookup dt items m : forall w r m' w' tr,
  check_loop dt items (m, w) = (r, (m', w'), tr) ->
  r = Err AttributeError \/ r = Err TypeError ->
  m' = m /\ lookup_fault r (sm_target m) w' tr.
Proof.
  induction items as [|[to g] items IH]; intros w r m' w' tr E Hr; simpl in E.
  - unfold ret in E. injection E as <- _ _ _. destruct Hr; discriminate.
  - apply bind_inv in E as [(e & E1 & ->)|(b & [m1 w1] & t1 & t2 & E1 & E2 & ->)].
    + destruct (check_transition_result _ _ _ _ _ _ _ E1)
        as [-> [[b Hb]|[[f Hf]|[_ [-> Hl]]]]].
      * congruence.
      * destruct Hr; congruence.
      * split; [reflexivity|exact Hl].
    + destruct (check_transition_shape _ _ _ _ _ _ _ E1) as [-> _].
      destruct b.
      * destruct (fire_not_lookup _ _ _ _ _ _ E2). destruct Hr; contradiction.
      * destruct (IH w1 r m' w' t2 E2 Hr) as [-> (t0 & n & -> & Hn)].
        split; [reflexivity|]. exists (t1 ++ t0), n.
        split; [rewrite app_assoc; reflexivity|exact Hn].
Qed.

Lemma check_loop_checks dt items m : forall w r s' tr,
  check_loop dt items (m, w) = (r, s', tr) ->
  exists k, checks tr = firstn k (map snd items).
Proof.
  induction items as [|[to g] items IH]; intros w r [m' w'] tr E; simpl in E.
  - unfold ret in E. injection E as _ _ _ <-. exists 0%nat. reflexivity.
  - apply bind_inv in E as [(e & E1 & _)|(b & [m1 w1] & t1 & t2 & E1 & E2 & ->)].
    + destruct (check_transition_shape _ _ _ _ _ _ _ E1) as [_ [d0 [-> D]]].
      exists 1%nat. change (checks (ACheck g :: d0)) with (g :: checks d0).
      rewrite (checks_no_check d0 (dispatch_no_check d0 D)). reflexivity.
    + destruct (check_transition_shape _ _ _ _ _ _ _ E1) as [-> [d0 [-> D]]].
      rewrite checks_app. change (checks (ACheck g :: d0)) with (g :: checks d0).
      rewrite (checks_no_check d0 (dispatch_no_check d0 D)).
      destruct b.
      * rewrite (fire_no_checks _ _ _ _ _ _ E2). exists 1%nat. reflexivity.
      * destruct (IH w1 _ _ _ E2) as [k Hk]. rewrite Hk. exists (S k). reflexivity.
Qed.

Lemma check_loop_dt dt1 dt2 items m : forall w r1 m1 w1 t1 r2 m2 w2 t2,
  check_loop dt1 items (m, w) = (r1, (m1, w1), t1) ->
  check_loop dt2 items (m, w) = (r2, (m2, w2), t2) ->
  r1 = Ok tt -> r2 = Ok tt -> m1 = m2.
Proof.
  induction items as [|[to g] items IH];
    intros w r1 m1 w1 t1 r2 m2 w2 t2 E1 E2 H1 H2; simpl in E1, E2.
  - unfold ret in E1, E2. injection E1 as _ <- _ _. injection E2 as _ <- _ _.
    reflexivity.
  - apply bind_inv in E1 as [(e & F1 & ->)|(b & [ma wa] & ta & tb & F1 & G1 & _)];
      [congruence|].
    apply bind_inv in E2 as [(e & F2 & ->)|(b' & [mb wb] & tc & td & F2 & G2 & _)];
      [congruence|].
    rewrite F1 in F2. injection F2 as <- <- <- _.
    destruct (check_transition_shape _ _ _ _ _ _ _ F1) as [-> _].
    destruct b.
    + rewrite (fire_ok_state _ _ _ _ _ _ _ _ G1 H1), (fire_ok_state _ _ _ _ _ _ _ _ G2 H2).
      reflexivity.
    + exact (IH _ _ _ _ _ _ _ _ _ G1 G2 H1 H2).
Qed.

(** ** Composition of [extend] *)

Lemma add_triples_app ts1 ts2 : forall m,
  add_triples (ts1 ++ ts2) m =
  match add_triples ts1 m with
  | (m1, None) => add_triples ts2 m1
  | (m1, Some e) => (m1, Some e)
  end.
Proof.
  induction ts1 as [|[[f t] g] ts1 IH]; intros m; simpl; [reflexivity|].
  destruct (ensure_state f m) as [m1|]; [|reflexivity].
  destruct (ensure_state t m1) as [m2|]; [|reflexivity].
  apply IH.
Qed.

Lemma ensure_state_initial st i m :
  ensure_state st (with_initial i m) = option_map (with_initial i) (ensure_state st m).
Proof.
  unfold ensure_state; simpl. destruct (dict_in st (sm_handler m)); [reflexivity|].
  destruct st; reflexivity.
Qed.

Lemma add_triples_initial ts : forall i m,
  add_triples ts (with_initial i m) =
  (with_initial i (fst (add_triples ts m)), snd (add_triples ts m)).
Proof.
  induction ts as [|[[f t] g] ts IH]; intros i m; simpl; [reflexivity|].
  rewrite ensure_state_initial.
  destruct (ensure_state f m) as [m1|]; simpl; [|reflexivity].
  rewrite ensure_state_initial.
  destruct (ensure_state t m1) as [m2|]; simpl; [|reflexivity].
  exact (IH i (add_transition f t g m2)).
Qed.

(** ** [_add_state] *)

(** [_add_state(s, *args, **kwargs)] on a named state never raises; each of
    the three handlers is the positional argument when there is one, else
    the keyword argument, else the prefixed name; the state's previous
    bindings are replaced, the other states' bindings and every other
    attribute are unchanged. *)
Theorem add_state_named (s : string) (args : list Binding)
    (kwargs : list (string * Binding)) (m : SM) :
  exists m', add_state (Some s) args kwargs m = Ok m' /\
  sm_target m' = sm_target m /\ sm_initial m' = sm_initial m /\
  sm_state m' = sm_state m /\ sm_transition m' = sm_transition m /\
  forall x, dict_get x (sm_handler m') =
    if state_eqb x (Some s) then
      Some (mkHandlers
        (match nth_error args 0 with
         | Some b => b
         | None => match kw_get "on_entry" kwargs with
                   | Some b => b | None => BName ("_on_entry_" ++ s) end
         end)
        (match nth_error args 1 with
         | Some b => b
         | None => match kw_get "in_state" kwargs with
                   | Some b => b | None => BName ("_in_state_" ++ s) end
         end)
        (match nth_error args 2 with
         | Some b => b
         | None => match kw_get "on_exit" kwargs with
                   | Some b => b | None => BName ("_on_exit_" ++ s) end
         end))
    else dict_get x (sm_handler m).
Proof.
  unfold add_state, state_arg.
  destruct (nth_error args 0), (nth_error args 1), (nth_error args 2);
    eexists; (split; [reflexivity|]); repeat split;
    intros x; cbn [sm_handler]; rewrite dict_get_set; reflexivity.
Qed.

(** [_add_state(None, ...)] raises [TypeError] (and changes nothing)
    unless all three handlers are given positionally, even when the missing
    ones are given as keyword arguments: the default ['_on_entry_' + None]
    is computed first.  With three positional handlers, as [__init__]
    calls it, it registers [None] with those handlers. *)
Theorem add_state_none (args : list Binding) (kwargs : list (string * Binding))
    (m : SM) :
  ((length args < 3)%nat -> add_state None args kwargs m = Err TypeError) /\
  (forall a b c rest, args = a :: b :: c :: rest ->
     add_state None args kwargs m =
     Ok (mkSM (sm_target m) (sm_initial m) (sm_state m)
           (dict_set None (mkHandlers a b c) (sm_handler m)) (sm_transition m))).
Proof.
  split.
  - intros H. destruct args as [|a [|b [|c rest]]]; simpl in H; try lia; reflexivity.
  - intros a b c rest ->. reflexivity.
Qed.

(** ** [_add_transition] *)

(** After [_add_transition(fr, to, g)], [_transition[fr][to]] is the stored
    guard (the callable, or ['_check_' + name]); every other pair keeps its
    guard; [fr] becomes a key of [_transition] and no key is lost; the
    handlers, the states and the target are unchanged. *)
Theorem add_transition_lookup (fr to : State) (g : GuardIn) (m : SM) :
  trans_get fr to (add_transition fr to g m) = Some (stored_guard g) /\
  (forall fr' to', state_eqb fr' fr && state_eqb to' to = false ->
     trans_get fr' to' (add_transition fr to g m) = trans_get fr' to' m) /\
  (forall x, dict_in x (sm_transition (add_transition fr to g m)) =
             state_eqb x fr || dict_in x (sm_transition m)) /\
  sm_handler (add_transition fr to g m) = sm_handler m /\
  sm_state (add_transition fr to g m) = sm_state m /\
  sm_initial (add_transition fr to g m) = sm_initial m /\
  sm_target (add_transition fr to g m) = sm_target m.
Proof.
  split; [|split; [|split]].
  - rewrite trans_get_add, !state_eqb_refl. reflexivity.
  - intros fr' to' H. rewrite trans_get_add, H. reflexivity.
  - intros x. unfold dict_in, add_transition; simpl. rewrite dict_get_set.
    destruct (state_eqb x fr); reflexivity.
  - repeat split.
Qed.

(** ** Composition of [extend] *)

(** When [extend(cfg1)] raises nothing, following it by [extend(cfg2)]
    gives the same machine and outcome as one [extend] with the triples of
    [cfg1] then those of [cfg2] and the initial state of [cfg2], or else of
    [cfg1]. *)
Theorem extend_then (cfg1 cfg2 : Config) (m : SM) :
  snd (extend cfg1 m) = None ->
  extend cfg2 (fst (extend cfg1 m)) = extend (cfg_then cfg1 cfg2) m.
Proof.
  unfold extend, cfg_then; simpl.
  destruct (cfg_initial cfg1) as [i1|], (cfg_initial cfg2) as [i2|];
    rewrite ?add_triples_app, ?add_triples_initial;
    destruct (add_triples (cfg_transitions cfg1) m) as [m1 [e|]]; simpl;
    intros H; try discriminate;
    rewrite ?add_triples_initial; reflexivity.
Qed.

(** ** The registration invariant *)

(** From construction on, through any sequence of [process], [reset] and
    [extend] calls, also ones that raise and whose exception the owner
    catches before the next call, the [None] state keeps the handlers
    [None, None, None] that [__init__] gives it, and every from-state and
    to-state of [_transition] has an entry in [_handler]. *)
Theorem registered_reachable (t : Obj) (cfg : Config) (cs : list Cmd) (w : World) :
  let '(_, (m', _), _) := run_all cs (fst (construct t cfg), w) in registered m'.
Proof.
  assert (H : forall cs m w r m' w' tr, registered m ->
            run_all cs (m, w) = (r, (m', w'), tr) -> registered m').
  { clear cs w t cfg.
    induction cs as [|c cs IH]; intros m w r m' w' tr Hm E; simpl in E.
    - unfold ret in E. injection E as _ <- _ _. exact Hm.
    - destruct (run_cmd c (m, w)) as [[r1 [m1 w1]] t1] eqn:E1.
      destruct (run_all cs (m1, w1)) as [[r2 [m2 w2]] t2] eqn:E2.
      injection E as _ <- _ _.
      exact (IH m1 w1 _ _ _ _ (run_cmd_registered _ _ _ _ _ _ _ Hm E1) E2). }
  assert (H0 : registered (fst (construct t cfg))).
  { unfold construct, extend.
    destruct (cfg_initial cfg) as [i|]; apply add_triples_registered;
      (split; [reflexivity|intros fr d Hd; simpl in Hd; discriminate]). }
  destruct (run_all cs (fst (construct t cfg), w)) as [[r [m' w']] tr] eqn:E.
  exact (H cs _ w r m' w' tr H0 E).
Qed.

(** ** Which faults a cycle can raise *)

(** On a machine keeping the registration invariant, a cycle after the
    first whose current state has outgoing transitions never fails with a
    [KeyError] of its own dict lookups: the handler lookups of the old and
    of the new state succeed (assuming [iteritems] yields entries of the
    dict).  A fault raised inside a user callable is [Raised f]. *)
Theorem doProcess_no_keyerror (dt : Z) (m : SM) (w : World) (s : string) d :
  registered m ->
  sm_state m = Some s ->
  dict_get (Some s) (sm_transition m) = Some d ->
  (forall x, In x (iteritems d) -> In x d) ->
  fst (fst (doProcess dt (m, w))) <> Err KeyError.
Proof.
  intros Hm Hs Hd Hit. rewrite (doProcess_named dt m w s d Hs Hd).
  rewrite <- Hs in Hd.
  destruct ((check_loop dt (iteritems d) ;; raise_event InState dt) (m, w))
    as [[r [m' w']] tr] eqn:E. simpl.
  apply bind_inv in E as [(e & E1 & ->)|(u & [m1 w1] & t1 & t2 & E1 & E2 & _)].
  - exact (proj1 (check_loop_no_keyerror dt d m Hm Hd _ _ _ _ _ _ Hit E1)).
  - destruct u.
    destruct (check_loop_no_keyerror dt d m Hm Hd _ _ _ _ _ _ Hit E1) as [_ Hok].
    destruct (Hok eq_refl) as (st & -> & Hst).
    destruct (raise_event_result _ _ _ _ _ _ _ _ E2) as [->|[[-> Hk]|[f ->]]];
      try discriminate.
    simpl in Hk. unfold dict_in in Hst. rewrite Hk in Hst. congruence.
Qed.

(** When the initial state has an entry in [_handler], the first cycle
    after construction or [reset] either returns normally or raises the
    fault of a handler it called: never [KeyError] nor any other error of
    the machine. *)
Theorem doProcess_first_cycle_registered (dt : Z) (m : SM) (w : World) :
  sm_state m = None -> dict_in (sm_initial m) (sm_handler m) = true ->
  let '(r, _, _) := doProcess dt (m, w) in
  r = Ok tt \/ exists f, r = Err (Raised f).
Proof.
  intros Hs Hi. rewrite (doProcess_uninit dt m w Hs), first_cycle_run.
  destruct (raise_event OnEntry 0 (with_state (sm_initial m) m, w))
    as [[[u|e] [m1 w1]] t1] eqn:E1; cbv beta iota.
  - destruct (raise_event_shape _ _ _ _ _ _ _ _ E1) as [-> _].
    destruct (raise_event InState 0 (with_state (sm_initial m) m, w1))
      as [[r2 [m2 w2]] t2] eqn:E2.
    destruct (raise_event_result _ _ _ _ _ _ _ _ E2) as [->|[[-> Hk]|[f ->]]];
      [left; reflexivity| |right; eauto].
    simpl in Hk. unfold dict_in in Hi. rewrite Hk in Hi. discriminate.
  - destruct (raise_event_result _ _ _ _ _ _ _ _ E1) as [H|[[H Hk]|[f H]]];
      [discriminate| |right; eauto].
    simpl in Hk. unfold dict_in in Hi. rewrite Hk in Hi. discriminate.
Qed.

(** A cycle that fails with an [AttributeError] or [TypeError] of its own
    (not one raised inside a user callable, which is [Raised f]) changed no
    attribute of the machine, and its last action is the lookup of a named
    guard on the target, which found nothing ([AttributeError]) or a
    member that is not callable ([TypeError]): the handler dispatch never
    raises these. *)
Theorem doProcess_lookup_faults (dt : Z) (m : SM) (w : World) :
  let '(r, (m', w'), tr) := doProcess dt (m, w) in
  r = Err AttributeError \/ r = Err TypeError ->
  m' = m /\ lookup_fault r (sm_target m) w' tr.
Proof.
  destruct (doProcess dt (m, w)) as [[r [m' w']] tr] eqn:E. intros Hr.
  destruct (sm_state m) as [s|] eqn:Hs.
  - destruct (dict_get (Some s) (sm_transition m)) as [d|] eqn:Hd.
    + rewrite (doProcess_named dt m w s d Hs Hd) in E.
      apply bind_inv in E as [(e & E1 & ->)|(u & [m1 w1] & t1 & t2 & E1 & E2 & ->)].
      * exact (check_loop_lookup _ _ _ _ _ _ _ _ E1 Hr).
      * destruct (raise_event_not_lookup _ _ _ _ _ _ E2). destruct Hr; contradiction.
    + rewrite (doProcess_no_entry dt m w s Hs Hd) in E.
      injection E as <- _ _ _. destruct Hr; discriminate.
  - rewrite (doProcess_uninit dt m w Hs) in E.
    apply bind_inv in E as [(e & E1 & ->)|(u & s1 & t1 & t2 & E1 & E2 & _)].
    + unfold set_state in E1. discriminate E1.
    + apply bind_inv in E2 as [(e & E3 & ->)|(u' & s2 & t3 & t4 & E3 & E4 & _)];
        [destruct (raise_event_not_lookup _ _ _ _ _ _ E3)
        |destruct (raise_event_not_lookup _ _ _ _ _ _ E4)];
        destruct Hr; contradiction.
Qed.

(** A named guard that resolves to a member of the target that is not
    callable raises [TypeError] out of [process] when it is reached: the
    transition does not fire, the state is unchanged and no event of the
    cycle is raised. *)
Theorem doProcess_noncallable_guard (dt : Z) (m : SM) (w : World) (s : string)
    d pre to n rest w1 t1 :
  sm_state m = Some s ->
  dict_get (Some s) (sm_transition m) = Some d ->
  iteritems d = pre ++ (to, GName n) :: rest ->
  all_false pre m w = Some (w1, t1) ->
  getattr w1 (sm_target m) n = Some MOther ->
  doProcess dt (m, w) =
  (Err TypeError, (m, w1), t1 ++ [ACheck (GName n); AGetattr (sm_target m) n]).
Proof.
  intros Hs Hd Hit Hf Hn.
  rewrite (doProcess_named dt m w s d Hs Hd), Hit.
  assert (Hg : check_transition (GName n) (m, w1) =
               (Err TypeError, (m, w1), [ACheck (GName n); AGetattr (sm_target m) n])).
  { unfold check_transition, bind, tell, py_getattr, throw; simpl. rewrite Hn. reflexivity. }
  unfold bind at 1.
  rewrite (check_loop_first_fault dt m pre to (GName n) rest w w1 t1 _ _ _ Hf Hg).
  reflexivity.
Qed.

(** ** The order of the guards *)

(** In a cycle after the first, the guards evaluated (in the order of
    evaluation) are an initial segment of the current state's outgoing
    guards in iteration order: each at most once, none of another state,
    none skipped. *)
Theorem doProcess_guards_in_order (dt : Z) (m : SM) (w : World) (s : string) d :
  sm_state m = Some s -> dict_get (Some s) (sm_transition m) = Some d ->
  exists k, checks (snd (doProcess dt (m, w))) = firstn k (map snd (iteritems d)).
Proof.
  intros Hs Hd. rewrite (doProcess_named dt m w s d Hs Hd).
  destruct ((check_loop dt (iteritems d) ;; raise_event InState dt) (m, w))
    as [[r s'] tr] eqn:E. simpl.
  apply bind_inv in E as [(e & E1 & _)|(u & [m1 w1] & t1 & t2 & E1 & E2 & ->)].
  - exact (check_loop_checks _ _ _ _ _ _ _ E1).
  - destruct s' as [m' w'].
    destruct (raise_event_shape _ _ _ _ _ _ _ _ E2) as [_ [d0 [-> D]]].
    rewrite checks_app.
    change (checks (ARaise InState (sm_state m1) dt :: d0)) with (checks d0).
    rewrite (checks_no_check d0 (dispatch_no_check d0 D)), app_nil_r.
    exact (check_loop_checks _ _ _ _ _ _ _ E1).
Qed.

(** When every outgoing guard of the current state returns false, the
    cycle changes no attribute of the machine and, after the guards, only
    raises [in_state] with [dt] on the current state. *)
Theorem doProcess_no_transition (dt : Z) (m : SM) (w : World) (s : string) d w1 t1 :
  sm_state m = Some s -> dict_get (Some s) (sm_transition m) = Some d ->
  all_false (iteritems d) m w = Some (w1, t1) ->
  exists r w2 t2, raise_event InState dt (m, w1) = (r, (m, w2), t2) /\
    doProcess dt (m, w) = (r, (m, w2), t1 ++ t2).
Proof.
  intros Hs Hd Hf. rewrite (doProcess_named dt m w s d Hs Hd).
  destruct (raise_event InState dt (m, w1)) as [[r [m2 w2]] t2] eqn:E.
  destruct (raise_event_shape _ _ _ _ _ _ _ _ E) as [-> _].
  exists r, w2, t2. split; [reflexivity|].
  unfold bind at 1. rewrite (check_loop_all_false dt _ m w w1 t1 Hf). cbv beta iota.
  rewrite E. reflexivity.
Qed.

(** The machine a cycle leaves when it returns normally does not depend on
    [dt]: all guards are evaluated before any handler receives [dt]. *)
Theorem doProcess_dt_independent (dt1 dt2 : Z) (m : SM) (w : World) :
  let '(r1, (m1, _), _) := doProcess dt1 (m, w) in
  let '(r2, (m2, _), _) := doProcess dt2 (m, w) in
  r1 = Ok tt -> r2 = Ok tt -> m1 = m2.
Proof.
  destruct (doProcess dt1 (m, w)) as [[r1 [m1 w1]] t1] eqn:E1.
  destruct (doProcess dt2 (m, w)) as [[r2 [m2 w2]] t2] eqn:E2.
  intros H1 H2.
  destruct (sm_state m) as [s|] eqn:Hs.
  - destruct (dict_get (Some s) (sm_transition m)) as [d|] eqn:Hd.
    + rewrite (doProcess_named dt1 m w s d Hs Hd) in E1.
      rewrite (doProcess_named dt2 m w s d Hs Hd) in E2.
      apply bind_inv in E1 as [(e & F1 & ->)|(u & [ma wa] & ta & tb & F1 & G1 & _)];
        [congruence|].
      apply bind_inv in E2 as [(e & F2 & ->)|(u' & [mb wb] & tc & td & F2 & G2 & _)];
        [congruence|].
      destruct u, u'.
      rewrite (proj1 (raise_event_shape _ _ _ _ _ _ _ _ G1)),
        (proj1 (raise_event_shape _ _ _ _ _ _ _ _ G2)).
      exact (check_loop_dt _ _ _ _ _ _ _ _ _ _ _ _ _ F1 F2 eq_refl eq_refl).
    + rewrite (doProcess_no_entry _ m w s Hs Hd) in E1. congruence.
  - rewrite (doProcess_uninit dt1 m w Hs) in E1.
    rewrite (doProcess_uninit dt2 m w Hs), E1 in E2. congruence.
Qed.

(** A machine whose configuration never gave an initial state stays in the
    [None] state: each [process] enters [None] again, raises [on_entry] and
    [in_state] on it, which have no handlers, and changes nothing. *)
Theorem doProcess_no_initial (dt : Z) (m : SM) (w : World) :
  dict_get None (sm_handler m) = Some noop_handlers ->
  sm_state m = None -> sm_initial m = None ->
  doProcess dt (m, w) = (Ok tt, (m, w), [ARaise OnEntry None 0; ARaise InState None 0]).
Proof.
  intros HN Hs Hi. destruct m as [t i st h tr]; simpl in *; subst.
  cbv [doProcess raise_event bind get_sm set_state tell ret]; simpl.
  rewrite HN. simpl. rewrite ?HN. reflexivity.
Qed.

(** ** Handlers that are skipped *)

(** An event whose handler is [None] or the empty name is a no-op that
    looks nothing up; one whose handler name resolves to a member of the
    target that is not callable is a no-op after that one lookup. *)
Theorem raise_event_skips (ev : Event) (dt : Z) (m : SM) (w : World) (hs : Handlers) :
  dict_get (sm_state m) (sm_handler m) = Some hs ->
  (handler_of hs ev = BNone \/ handler_of hs ev = BName EmptyString ->
     raise_event ev dt (m, w) = (Ok tt, (m, w), [ARaise ev (sm_state m) dt])) /\
  (forall n, str_truthy n = true -> handler_of hs ev = BName n ->
     getattr w (sm_target m) n = Some MOther ->
     raise_event ev dt (m, w) =
     (Ok tt, (m, w), [ARaise ev (sm_state m) dt; AGetattr (sm_target m) n])).
Proof.
  intros Hh. split.
  - intros [Hb|Hb]; unfold raise_event, bind, get_sm, tell, ret; simpl;
      rewrite Hh; simpl; rewrite Hb; reflexivity.
  - intros n Hn Hb Hg. unfold raise_event, bind, get_sm, tell, ret, py_getattr; simpl.
    rewrite Hh; simpl. rewrite Hb, Hn; simpl. rewrite Hg. reflexivity.
Qed.

End Machine.

(** * Witnesses and counterexamples on the example target *)

Local Open Scope string_scope.

(** C1: the first cycle of the machine built from [ex_cfg]. *)
Lemma doProcess_first_cycle_witness :
  sm_state (fst (construct 1%nat ex_cfg)) = None /\
  (let '(_, (m', _), _) :=
     doProcess ex_getattr ex_call_handler ex_call_guard ex_iter 5
       (fst (construct 1%nat ex_cfg), tt) in
   sm_state m' = Some "Idle").
Proof.
  split; [reflexivity|].
  pose proof (doProcess_first_cycle ex_getattr ex_call_handler ex_call_guard ex_iter 5
                (fst (construct 1%nat ex_cfg)) tt ltac:(reflexivity)) as H.
  destruct (doProcess ex_getattr ex_call_handler ex_call_guard ex_iter 5
              (fst (construct 1%nat ex_cfg), tt)) as [[r [m' w']] tr].
  destruct H as [-> _]. reflexivity.
Defined.

(** C1: with an initial state that no transition names, the first cycle
    raises [KeyError] in [_raise_event('on_entry', 0)] and no [in_state]
    is raised. *)
Lemma doProcess_first_cycle_counterexample :
  doProcess ex_getattr ex_call_handler ex_call_guard ex_iter 5
    (fst (construct 1%nat ex_cfg_bare), tt) =
  (Err KeyError, (with_state (Some "Idle") (fst (construct 1%nat ex_cfg_bare)), tt),
   [ARaise OnEntry (Some "Idle") 0]).
Proof. reflexivity. Qed.

(** C2: from [Idle], [_check_no] returns False and [_check_go] True. *)
Lemma doProcess_one_transition_witness :
  let '(_, _, tr) :=
    doProcess ex_getattr ex_call_handler ex_call_guard ex_iter 7
      (with_state (Some "Idle") (fst (construct 1%nat ex_cfg)), tt) in
  In (ARaise OnExit (Some "Idle") 7) tr.
Proof.
  pose proof (proj1 (doProcess_one_transition ex_getattr ex_call_handler ex_call_guard ex_iter)
    7 (with_state (Some "Idle") (fst (construct 1%nat ex_cfg))) tt "Idle"
    [(Some "A", GName "_check_no"); (Some "Run", GName "_check_go");
     (Some "B", GName "_check_missing")]
    [(Some "A", GName "_check_no")] (Some "Run") (GName "_check_go")
    [(Some "B", GName "_check_missing")]
    tt [ACheck (GName "_check_no"); AGetattr 1%nat "_check_no"; ACall "no" None]
    tt [ACheck (GName "_check_go"); AGetattr 1%nat "_check_go"; ACall "go" None]
    ltac:(reflexivity) ltac:(reflexivity) ltac:(reflexivity) ltac:(reflexivity)
    ltac:(reflexivity)) as H.
  destruct (doProcess ex_getattr ex_call_handler ex_call_guard ex_iter 7
              (with_state (Some "Idle") (fst (construct 1%nat ex_cfg)), tt))
    as [[r [m' w']] tr].
  destruct H as [t3 [-> _]].
  apply in_or_app; right. apply in_or_app; right. left. reflexivity.
Defined.

(** C3: the first cycle, run with [dt = 5], returns normally; the third
    cycle of the machine of [ex_cfg_go], in [Done], raises. *)
Lemma doProcess_ends_in_state_witness :
  (let '(r, _, tr) :=
     doProcess ex_getattr ex_call_handler ex_call_guard ex_iter 5
       (fst (construct 1%nat ex_cfg), tt) in
   r = Ok tt /\ In (ARaise InState (Some "Idle") 0) tr) /\
  (let '(r, _, tr) :=
     doProcess ex_getattr ex_call_handler ex_call_guard ex_iter 2
       (with_state (Some "Done") (fst (construct 1%nat ex_cfg_go)), tt) in
   r = Err KeyError /\ forallb not_in_state tr = true).
Proof.
  split.
  - pose proof (doProcess_ends_in_state ex_getattr ex_call_handler ex_call_guard ex_iter 5
                  (fst (construct 1%nat ex_cfg)) tt) as H.
    destruct (doProcess ex_getattr ex_call_handler ex_call_guard ex_iter 5
                (fst (construct 1%nat ex_cfg), tt)) as [[r [m' w']] tr] eqn:E.
    vm_compute in E. injection E as <- <- <- <-.
    destruct H as [H _]. destruct (H eq_refl) as (pre & d & Htr & _).
    split; [reflexivity|]. rewrite Htr. apply in_or_app. right. left. reflexivity.
  - pose proof (doProcess_ends_in_state ex_getattr ex_call_handler ex_call_guard ex_iter 2
                  (with_state (Some "Done") (fst (construct 1%nat ex_cfg_go))) tt) as H.
    destruct (doProcess ex_getattr ex_call_handler ex_call_guard ex_iter 2
                (with_state (Some "Done") (fst (construct 1%nat ex_cfg_go)), tt))
      as [[r [m' w']] tr] eqn:E.
    vm_compute in E. injection E as <- <- <- <-.
    destruct H as [_ H]. destruct (H KeyError eq_refl) as [N|(pre & d & Htr & _)].
    + split; [reflexivity|exact N].
    + destruct pre; discriminate Htr.
Defined.

(** C3: [process(0)], [process(1)] on the machine of [ex_cfg_go] enter
    [Idle], then take [Idle -> Done]; [process(2)] then raises [KeyError]
    at [self._transition[self._state]] and raises no [in_state]. *)
Lemma doProcess_ends_in_state_counterexample :
  let '(r1, (m1, w1), _) :=
    run_cmds ex_getattr ex_call_handler ex_call_guard ex_iter
      [CProcess 0; CProcess 1] (fst (construct 1%nat ex_cfg_go), tt) in
  r1 = Ok tt /\ sm_state m1 = Some "Done" /\
  doProcess ex_getattr ex_call_handler ex_call_guard ex_iter 2 (m1, w1) =
  (Err KeyError, (m1, w1), []).
Proof. vm_compute. split; [reflexivity|split; reflexivity]. Qed.


(** C4: from [Idle] in the machine of [ex_cfg2], [_check_no] returns
    False and [_check_missing] is no member of the target. *)
Lemma doProcess_unresolved_guard_witness :
  fst (fst (doProcess ex_getattr ex_call_handler ex_call_guard ex_iter 1
              (with_state (Some "Idle") (fst (construct 1%nat ex_cfg2)), tt))) =
  Err AttributeError.
Proof.
  rewrite (doProcess_unresolved_guard ex_getattr ex_call_handler ex_call_guard ex_iter 1
    (with_state (Some "Idle") (fst (construct 1%nat ex_cfg2))) tt "Idle"
    [(Some "A", GName "_check_no"); (Some "B", GName "_check_missing")]
    [(Some "A", GName "_check_no")] (Some "B") "_check_missing" []
    tt [ACheck (GName "_check_no"); AGetattr 1%nat "_check_no"; ACall "no" None]);
    reflexivity.
Defined.

(** C4: the second [process] call on the machine of [ex_cfg2] raises
    [AttributeError] at the guard named ['missing']. *)
Lemma doProcess_unresolved_guard_counterexample :
  fst (fst (run_cmds ex_getattr ex_call_handler ex_call_guard ex_iter
              [CProcess 0; CProcess 1] (fst (construct 1%nat ex_cfg2), tt))) =
  Err AttributeError.
Proof. reflexivity. Qed.

(** C5: [_on_entry_Run] raises after the transition [Idle -> Run] fired;
    in the machine of [ex_cfg_raise], the guard [boom] raises. *)
Lemma doProcess_fault_propagates_witness :
  (let '(r, (m', _), tr) :=
     doProcess ex_getattr ex_call_handler ex_call_guard ex_iter 7
       (with_state (Some "Idle") (fst (construct 1%nat ex_cfg)), tt) in
   r = Err (Raised "boom") /\ sm_state m' = Some "Run" /\
   forallb not_in_state tr = true) /\
  (let '(r, _, tr) :=
     doProcess ex_getattr ex_call_handler ex_call_guard2 ex_iter 4
       (with_state (Some "Idle") (fst (construct 1%nat ex_cfg_raise)), tt) in
   r = Err (Raised "boom") /\ In (ACall "boom" None) tr).
Proof.
  split.
  2:{ pose proof (proj2 (proj2 (doProcess_fault_propagates ex_getattr ex_call_handler
                                  ex_call_guard2 ex_iter))
        "boom" 4 (with_state (Some "Idle") (fst (construct 1%nat ex_cfg_raise))) tt
        ltac:(intros; reflexivity) ltac:(intros; reflexivity)) as H3.
      destruct (doProcess ex_getattr ex_call_handler ex_call_guard2 ex_iter 4
                  (with_state (Some "Idle") (fst (construct 1%nat ex_cfg_raise)), tt))
        as [[r s'] tr] eqn:E.
      vm_compute in E. injection E as <- <- <-.
      destruct (H3 None) as [Hr _]; [right; left; reflexivity|].
      split; [exact Hr|right; left; reflexivity]. }
  pose proof (proj1 (proj2 (doProcess_fault_propagates ex_getattr ex_call_handler ex_call_guard ex_iter))
    7 (with_state (Some "Idle") (fst (construct 1%nat ex_cfg))) tt "Idle"
    [(Some "A", GName "_check_no"); (Some "Run", GName "_check_go");
     (Some "B", GName "_check_missing")]
    [(Some "A", GName "_check_no")] (Some "Run") (GName "_check_go")
    [(Some "B", GName "_check_missing")]
    tt [ACheck (GName "_check_no"); AGetattr 1%nat "_check_no"; ACall "no" None]
    tt [ACheck (GName "_check_go"); AGetattr 1%nat "_check_go"; ACall "go" None]
    tt [ARaise OnExit (Some "Idle") 7; AGetattr 1%nat "_on_exit_Idle"]
    (Raised "boom") (with_state (Some "Run") (fst (construct 1%nat ex_cfg))) tt
    [ARaise OnEntry (Some "Run") 7; AGetattr 1%nat "_on_entry_Run"; ACall "boom" (Some 7)]
    ltac:(reflexivity) ltac:(reflexivity) ltac:(reflexivity) ltac:(reflexivity)
    ltac:(reflexivity) ltac:(reflexivity) ltac:(reflexivity)) as H.
  destruct (doProcess ex_getattr ex_call_handler ex_call_guard ex_iter 7
              (with_state (Some "Idle") (fst (construct 1%nat ex_cfg)), tt))
    as [[r [m' w']] tr].
  destruct H as (-> & -> & _ & _ & Hn). auto.
Defined.

(** C6: extending the machine of [ex_cfg2] with [ex_cfg]. *)
Lemma extend_merges_witness :
  dict_in None (sm_handler (fst (construct 1%nat ex_cfg2))) = true /\
  snd (extend ex_cfg (fst (construct 1%nat ex_cfg2))) = None.
Proof.
  split; [reflexivity|].
  pose proof (extend_merges ex_cfg (fst (construct 1%nat ex_cfg2)) ltac:(reflexivity)) as H.
  destruct (extend ex_cfg (fst (construct 1%nat ex_cfg2))) as [m' f].
  exact (proj1 H).
Defined.

(** C7: [on_entry] of [Idle] looks [_on_entry_Idle] up on target [1] and
    calls what it finds there; after [target = 2] the same event looks the
    name up on [2], which lacks it. *)
Lemma late_binding_target_witness :
  raise_event ex_getattr ex_call_handler OnEntry 3
    (with_state (Some "Idle") (fst (construct 1%nat ex_cfg)), tt) =
  (Ok tt, (with_state (Some "Idle") (fst (construct 1%nat ex_cfg)), tt),
   [ARaise OnEntry (Some "Idle") 3; AGetattr 1%nat "_on_entry_Idle";
    ACall "enter_idle" (Some 3)]) /\
  raise_event ex_getattr ex_call_handler OnEntry 3
    (set_target 2%nat (with_state (Some "Idle") (fst (construct 1%nat ex_cfg))), tt) =
  (Ok tt, (set_target 2%nat (with_state (Some "Idle") (fst (construct 1%nat ex_cfg))), tt),
   [ARaise OnEntry (Some "Idle") 3; AGetattr 2%nat "_on_entry_Idle"]).
Proof.
  split.
  - rewrite (proj1 (late_binding_target ex_getattr ex_call_handler ex_call_guard ex_iter)
      OnEntry 3 (with_state (Some "Idle") (fst (construct 1%nat ex_cfg))) tt
      (mkHandlers (BName "_on_entry_Idle") (BName "_in_state_Idle") (BName "_on_exit_Idle"))
      "_on_entry_Idle" eq_refl eq_refl eq_refl).
    reflexivity.
  - rewrite (proj1 (late_binding_target ex_getattr ex_call_handler ex_call_guard ex_iter)
      OnEntry 3 (set_target 2%nat (with_state (Some "Idle") (fst (construct 1%nat ex_cfg)))) tt
      (mkHandlers (BName "_on_entry_Idle") (BName "_in_state_Idle") (BName "_on_exit_Idle"))
      "_on_entry_Idle" eq_refl eq_refl eq_refl).
    reflexivity.
Defined.

(** C8: [on_exit] of [Idle] is bound to [_on_exit_Idle], which the target
    lacks. *)
Lemma raise_event_unresolved_name_witness :
  fst (fst (raise_event ex_getattr ex_call_handler OnExit 7
              (with_state (Some "Idle") (fst (construct 1%nat ex_cfg)), tt))) = Ok tt.
Proof.
  rewrite (raise_event_unresolved_name ex_getattr ex_call_handler OnExit 7
    (with_state (Some "Idle") (fst (construct 1%nat ex_cfg))) tt
    (mkHandlers (BName "_on_entry_Idle") (BName "_in_state_Idle") (BName "_on_exit_Idle"))
    "_on_exit_Idle"); reflexivity.
Defined.

(** C9: [reset()] then [extend(ex_cfg2)] on a fresh machine. *)
Lemma uninitialized_after_construct_and_reset_witness :
  let '(_, (m', _), _) :=
    run_cmds ex_getattr ex_call_handler ex_call_guard ex_iter
      [CReset; CExtend ex_cfg2] (fst (construct 1%nat ex_cfg), tt) in
  sm_state m' = None.
Proof.
  apply (proj1 (proj2 (uninitialized_after_construct_and_reset
                         ex_getattr ex_call_handler ex_call_guard ex_iter))).
  reflexivity.
Defined.

(** C10: [Run] is only a to-state of [ex_cfg]. *)
Lemma doProcess_missing_transitions_witness :
  doProcess ex_getattr ex_call_handler ex_call_guard ex_iter 3
    (with_state (Some "Run") (fst (construct 1%nat ex_cfg)), tt) =
  (Err KeyError, (with_state (Some "Run") (fst (construct 1%nat ex_cfg)), tt), []).
Proof.
  apply (proj2 (doProcess_missing_transitions ex_getattr ex_call_handler ex_call_guard ex_iter)
           1%nat ex_cfg "Run").
  - intros fr to g Hin. simpl in Hin.
    destruct Hin as [H|[H|[H|[]]]]; injection H as <- _ _; discriminate.
  - reflexivity.
  - reflexivity.
Defined.

(** * Witnesses of the further properties *)

(** [_add_state(None, None, None, None)] as [__init__] calls it, and
    [_add_state(None, on_entry=None, in_state=None, on_exit=None)]. *)
Lemma add_state_none_witness :
  add_state None [BNone; BNone; BNone] [] (mkSM 1%nat None None [] []) =
    Ok (init_sm 1%nat) /\
  add_state None [] [("on_entry", BNone); ("in_state", BNone); ("on_exit", BNone)]
    (mkSM 1%nat None None [] []) = Err TypeError.
Proof.
  split.
  - exact (proj2 (add_state_none [BNone; BNone; BNone] [] (mkSM 1%nat None None [] []))
             BNone BNone BNone [] eq_refl).
  - apply (proj1 (add_state_none [] _ (mkSM 1%nat None None [] []))). simpl. lia.
Defined.

(** Adding [Idle -> Run] keeps the guard of [Idle -> A]. *)
Lemma add_transition_lookup_witness :
  trans_get (Some "Idle") (Some "A")
    (add_transition (Some "Idle") (Some "Run") (GIName "go") (fst (construct 1%nat ex_cfg2))) =
  trans_get (Some "Idle") (Some "A") (fst (construct 1%nat ex_cfg2)).
Proof.
  apply (proj1 (proj2 (add_transition_lookup (Some "Idle") (Some "Run") (GIName "go")
                         (fst (construct 1%nat ex_cfg2))))).
  reflexivity.
Defined.

(** [extend(ex_cfg2)] then [extend(ex_cfg_noinit)] on a fresh machine: the
    second configuration has no initial state and redefines [Idle -> A]. *)
Lemma extend_then_witness :
  extend ex_cfg_noinit (fst (extend ex_cfg2 (init_sm 1%nat))) =
  extend (cfg_then ex_cfg2 ex_cfg_noinit) (init_sm 1%nat) /\
  sm_initial (fst (extend ex_cfg_noinit (fst (extend ex_cfg2 (init_sm 1%nat))))) =
  Some "Idle".
Proof.
  split.
  - apply extend_then. reflexivity.
  - rewrite (extend_then ex_cfg2 ex_cfg_noinit (init_sm 1%nat) eq_refl). reflexivity.
Defined.

(** The [Idle] state of the machine of [ex_cfg]. *)
Lemma doProcess_no_keyerror_witness :
  fst (fst (doProcess ex_getattr ex_call_handler ex_call_guard ex_iter 7
              (with_state (Some "Idle") (fst (construct 1%nat ex_cfg)), tt))) <>
  Err KeyError.
Proof.
  exact (doProcess_no_keyerror ex_getattr ex_call_handler ex_call_guard ex_iter 7
    (with_state (Some "Idle") (fst (construct 1%nat ex_cfg))) tt "Idle"
    [(Some "A", GName "_check_no"); (Some "Run", GName "_check_go");
     (Some "B", GName "_check_missing")]
    (registeredb_sound (with_state (Some "Idle") (fst (construct 1%nat ex_cfg))) eq_refl)
    eq_refl eq_refl (fun x H => H)).
Defined.

(** The first cycle of the machine of [ex_cfg]. *)
Lemma doProcess_first_cycle_registered_witness :
  let '(r, _, _) := doProcess ex_getattr ex_call_handler ex_call_guard ex_iter 5
                      (fst (construct 1%nat ex_cfg), tt) in
  r = Ok tt \/ exists f, r = Err (Raised f).
Proof.
  exact (doProcess_first_cycle_registered ex_getattr ex_call_handler ex_call_guard ex_iter
           5 (fst (construct 1%nat ex_cfg)) tt eq_refl eq_refl).
Defined.

(** The guard named ['missing'] of the machine of [ex_cfg2]. *)
Lemma doProcess_lookup_faults_witness :
  let m := with_state (Some "Idle") (fst (construct 1%nat ex_cfg2)) in
  let '(r, (m', w'), tr) :=
    doProcess ex_getattr ex_call_handler ex_call_guard ex_iter 1 (m, tt) in
  m' = m /\ lookup_fault ex_getattr r (sm_target m) w' tr.
Proof.
  intros m.
  pose proof (doProcess_lookup_faults ex_getattr ex_call_handler ex_call_guard ex_iter
                1 m tt) as H.
  destruct (doProcess ex_getattr ex_call_handler ex_call_guard ex_iter 1 (m, tt))
    as [[r [m' w']] tr] eqn:E.
  apply H. subst m. vm_compute in E. injection E as <- _ _ _. left; reflexivity.
Defined.

(** The guard named ['flag'] of the machine of [ex_cfg3] is an attribute
    that is not callable. *)
Lemma doProcess_noncallable_guard_witness :
  fst (fst (doProcess ex_getattr2 ex_call_handler ex_call_guard ex_iter 1
              (with_state (Some "Idle") (fst (construct 1%nat ex_cfg3)), tt))) =
  Err TypeError.
Proof.
  rewrite (doProcess_noncallable_guard ex_getattr2 ex_call_handler ex_call_guard ex_iter 1
    (with_state (Some "Idle") (fst (construct 1%nat ex_cfg3))) tt "Idle"
    [(Some "A", GName "_check_no"); (Some "C", GName "_check_flag")]
    [(Some "A", GName "_check_no")] (Some "C") "_check_flag" []
    tt [ACheck (GName "_check_no"); AGetattr 1%nat "_check_no"; ACall "no" None]);
    reflexivity.
Defined.

(** The [Idle] state of the machine of [ex_cfg]. *)
Lemma doProcess_guards_in_order_witness :
  exists k, checks (snd (doProcess ex_getattr ex_call_handler ex_call_guard ex_iter 7
                          (with_state (Some "Idle") (fst (construct 1%nat ex_cfg)), tt))) =
            firstn k [GName "_check_no"; GName "_check_go"; GName "_check_missing"].
Proof.
  exact (doProcess_guards_in_order ex_getattr ex_call_handler ex_call_guard ex_iter 7
    (with_state (Some "Idle") (fst (construct 1%nat ex_cfg))) tt "Idle"
    [(Some "A", GName "_check_no"); (Some "Run", GName "_check_go");
     (Some "B", GName "_check_missing")] eq_refl eq_refl).
Defined.

(** The [Idle] state of the machine of [ex_cfg_idle]: its one guard
    returns False. *)
Lemma doProcess_no_transition_witness :
  let m := with_state (Some "Idle") (fst (construct 1%nat ex_cfg_idle)) in
  exists r w2 t2,
    raise_event ex_getattr ex_call_handler InState 4 (m, tt) = (r, (m, w2), t2) /\
    doProcess ex_getattr ex_call_handler ex_call_guard ex_iter 4 (m, tt) =
    (r, (m, w2), ([ACheck (GName "_check_no"); AGetattr 1%nat "_check_no"; ACall "no" None]
                  ++ t2)%list).
Proof.
  exact (doProcess_no_transition ex_getattr ex_call_handler ex_call_guard ex_iter 4
    (with_state (Some "Idle") (fst (construct 1%nat ex_cfg_idle))) tt "Idle"
    [(Some "A", GName "_check_no")] tt
    [ACheck (GName "_check_no"); AGetattr 1%nat "_check_no"; ACall "no" None]
    eq_refl eq_refl eq_refl).
Defined.

(** Two cycles of the [Idle] state of [ex_cfg_idle] with different [dt]. *)
Lemma doProcess_dt_independent_witness :
  let m := with_state (Some "Idle") (fst (construct 1%nat ex_cfg_idle)) in
  fst (snd (fst (doProcess ex_getattr ex_call_handler ex_call_guard ex_iter 3 (m, tt)))) =
  fst (snd (fst (doProcess ex_getattr ex_call_handler ex_call_guard ex_iter 8 (m, tt)))).
Proof.
  intros m.
  pose proof (doProcess_dt_independent ex_getattr ex_call_handler ex_call_guard ex_iter
                3 8 m tt) as H.
  destruct (doProcess ex_getattr ex_call_handler ex_call_guard ex_iter 3 (m, tt))
    as [[r1 [m1 w1]] t1] eqn:E1.
  destruct (doProcess ex_getattr ex_call_handler ex_call_guard ex_iter 8 (m, tt))
    as [[r2 [m2 w2]] t2] eqn:E2.
  subst m. vm_compute in E1, E2.
  injection E1 as <- _ _ _. injection E2 as <- _ _ _.
  exact (H eq_refl eq_refl).
Defined.

(** The machine of [ex_cfg_noinit], which has no initial state. *)
Lemma doProcess_no_initial_witness :
  doProcess ex_getattr ex_call_handler ex_call_guard ex_iter 2
    (fst (construct 1%nat ex_cfg_noinit), tt) =
  (Ok tt, (fst (construct 1%nat ex_cfg_noinit), tt),
   [ARaise OnEntry None 0; ARaise InState None 0]).
Proof.
  exact (doProcess_no_initial ex_getattr ex_call_handler ex_call_guard ex_iter 2
    (fst (construct 1%nat ex_cfg_noinit)) tt eq_refl eq_refl eq_refl).
Defined.

(** [on_entry] of the [None] state, and [on_exit] of [Idle] on the second
    target, where [_on_exit_Idle] is not callable. *)
Lemma raise_event_skips_witness :
  raise_event ex_getattr ex_call_handler OnEntry 0 (init_sm 1%nat, tt) =
    (Ok tt, (init_sm 1%nat, tt), [ARaise OnEntry None 0]) /\
  raise_event ex_getattr2 ex_call_handler OnExit 6
    (with_state (Some "Idle") (fst (construct 1%nat ex_cfg)), tt) =
    (Ok tt, (with_state (Some "Idle") (fst (construct 1%nat ex_cfg)), tt),
     [ARaise OnExit (Some "Idle") 6; AGetattr 1%nat "_on_exit_Idle"]).
Proof.
  split.
  - apply (proj1 (raise_event_skips ex_getattr ex_call_handler OnEntry 0 (init_sm 1%nat) tt
                    noop_handlers eq_refl)).
    left; reflexivity.
  - apply (proj2 (raise_event_skips ex_getattr2 ex_call_handler OnExit 6
                    (with_state (Some "Idle") (fst (construct 1%nat ex_cfg))) tt
                    (mkHandlers (BName "_on_entry_Idle") (BName "_in_state_Idle")
                       (BName "_on_exit_Idle")) eq_refl) "_on_exit_Idle");
      reflexivity.
Defined.
